(** * SafeSnap frontend: session lifecycle and upload workflow

    A shallow embedding of the client logic of the SafeSnap frontend:
    - [api/storage.ts]: [getFileExtension], [getFileType] and the
      [storageApi] object ([getUploadUrl], [uploadFile], [fileExists]);
    - [api/client.ts]: the two interceptors of [ApiClient];
    - [api/auth.ts]: [authApi];
    - [contexts/AuthContext.tsx]: the restore effect, [login], [logout] and
      the derived [isAuthenticated], with the context value that the
      consumers keep between two renders;
    - [App.tsx]: [ProtectedRoute] and the routes;
    - [pages/LoginPage.tsx]: [onSuccess];
    - [pages/ManagerDashboard.tsx]: [filterValidImageUrls];
    - [pages/CreateIncidentPage.tsx]: [handleFileUpload] and [removeFile].

    Conventions.  A JavaScript string that the code holds or stores is a
    [string]; its characters are the UTF-16 code units below 256.  A string
    inside a parsed JSON value is the list of its code units, since
    [\uXXXX] denotes any of them.  [undefined] and [null] are [None].  A
    promise that settles is an [Outcome]: [Resolved v] or [Rejected e].
    A number that the code computes with is an integer ([Z]) and stands for
    the double of that value; a product is rounded as a product of doubles
    is, and a product that involves [undefined] is [NaN]. *)

From Stdlib Require Import ZArith NArith String Ascii List Bool Lia.
From Stdlib Require Import DecimalString DecimalN DecimalPos DecimalFacts.
From stdpp Require Import base option list gmap strings.

Set Warnings "-register-all".

Local Open Scope string_scope.
Local Open Scope Z_scope.

(** ** JavaScript values and built-ins the code relies on *)

Module JS.

(** [String.prototype.toLowerCase] on the code units below 256: the
    upper-case letters are A-Z, À-Ö and Ø-Þ, each 32 below its lower-case
    form. *)
Definition is_upper (c : ascii) : bool :=
  let n := N_of_ascii c in
  ((65 <=? n) && (n <=? 90) || (192 <=? n) && (n <=? 222) && negb (n =? 215))%N.

Definition lower_char (c : ascii) : ascii :=
  if is_upper c then ascii_of_N (N_of_ascii c + 32) else c.

Fixpoint toLowerCase (s : string) : string :=
  match s with
  | EmptyString => EmptyString
  | String c s' => String (lower_char c) (toLowerCase s')
  end.

(** [s.split(sep)] for a one-character separator: never the empty array. *)
Fixpoint split (sep : ascii) (s : string) : list string :=
  match s with
  | EmptyString => [EmptyString]
  | String c s' =>
      if Ascii.eqb c sep then EmptyString :: split sep s'
      else match split sep s' with
           | piece :: pieces => String c piece :: pieces
           | [] => [String c EmptyString]
           end
  end.

(** [arr.pop()]: the last element, [undefined] on the empty array. *)
Definition pop {A} (arr : list A) : option A := last arr.

(** [s.startsWith(p)]. *)
Definition startsWith (s p : string) : bool := String.prefix p s.

(** Truthiness of a value that is a string or [undefined]. *)
Definition truthy_str (v : option string) : bool :=
  match v with
  | Some s => negb (String.eqb s "")
  | None => false
  end.

(** [a || b] on such values. *)
Definition or_else (a b : option string) : option string :=
  if truthy_str a then a else b.

(** The code units of a string of the model. *)
Fixpoint units (s : string) : list N :=
  match s with
  | EmptyString => []
  | String c s' => N_of_ascii c :: units s'
  end.

(** [s === t] for two strings given by their code units. *)
Fixpoint same_units (s t : list N) : bool :=
  match s, t with
  | [], [] => true
  | a :: s', b :: t' => (a =? b)%N && same_units s' t'
  | _, _ => false
  end.

(** The results of the arithmetic: an integer that is a double, [NaN], and
    the two infinities. *)
Inductive number :=
| NaN
| Int (z : Z)
| Infinity (negative : bool).

(** The double nearest to an integer: 53 significant bits are kept, a tie
    goes to the neighbour whose last kept bit is 0, and what reaches
    [2 ^ 1024] is an infinity. *)
Definition round_double (z : Z) : number :=
  let a := Z.abs z in
  let e := Z.log2 a - 52 in
  if e <=? 0 then Int z
  else
    let q := a / 2 ^ e in
    let r := a mod 2 ^ e in
    let half := 2 ^ (e - 1) in
    let q' := if r <? half then q
              else if half <? r then q + 1
              else if Z.even q then q else q + 1 in
    let m := q' * 2 ^ e in
    if 2 ^ 1024 <=? m then Infinity (z <? 0)
    else Int (if z <? 0 then - m else m).


(** [v * k] for a field [v] that may be [undefined]: the exact product of
    two integers that are doubles, rounded to a double. *)
Definition times (v : option Z) (k : Z) : number :=
  match v with
  | Some z => round_double (z * k)
  | None => NaN
  end.

End JS.

(** ** api/storage.ts: the pure helpers *)

Inductive BackendFileType := IMAGE | AUDIO.

(** [fileName.split('.').pop()?.toLowerCase() || ''] *)
Definition getFileExtension (fileName : string) : string :=
  default "" (JS.or_else (JS.toLowerCase <$> JS.pop (JS.split "." fileName)) (Some "")).

(** [mimeType.startsWith('image/') ? 'IMAGE' : 'AUDIO'] *)
Definition getFileType (mimeType : string) : BackendFileType :=
  if JS.startsWith mimeType "image/" then IMAGE else AUDIO.

(** The words of the specification: the substring after the final ['.'] of
    a name, [None] when the name has no ['.']. *)
Fixpoint after_final_dot (s : string) : option string :=
  match s with
  | EmptyString => None
  | String c s' =>
      match after_final_dot s' with
      | Some ext => Some ext
      | None => if Ascii.eqb c "." then Some s' else None
      end
  end.

(** ** JSON: the values, [JSON.stringify] and [JSON.parse] *)

Module Json.

(** A number literal is kept exactly, as [mantissa * 10 ^ exponent].  A
    string, and the key of a property, is the list of its code units. *)
Inductive json :=
| JNull
| JBool (b : bool)
| JNum (mantissa exponent : Z)
| JString (s : list N)
| JArr (items : list json)
| JObj (fields : list (list N * json)).

(** The string value that a string of the model is. *)
Definition JStr (s : string) : json := JString (JS.units s).

Definition dquote : ascii := "034"%char.
Definition backslash : ascii := "\"%char.

(** *** Property access and truthiness *)

Fixpoint assoc (k : list N) (fields : list (list N * json)) : option json :=
  match fields with
  | [] => None
  | (k', v) :: fields' => if JS.same_units k k' then Some v else assoc k fields'
  end.

(** [obj[k] = v]: an existing key keeps its place. *)
Fixpoint obj_set (k : list N) (v : json) (fields : list (list N * json))
  : list (list N * json) :=
  match fields with
  | [] => [(k, v)]
  | (k', v') :: fields' =>
      if JS.same_units k k' then (k, v) :: fields'
      else (k', v') :: obj_set k v fields'
  end.

(** [value.k] for a key that no prototype defines: [undefined] is [None]. *)
Definition prop (value : json) (k : string) : option json :=
  match value with
  | JObj fields => assoc (JS.units k) fields
  | _ => None
  end.

(** A literal denotes zero when its mantissa is zero or when it rounds to
    zero as a double, that is when it is at most [2 ^ -1075]. *)
Definition is_zero (m e : Z) : bool :=
  (m =? 0) || ((e <? 0) && (Z.abs m * 2 ^ 1075 <=? 10 ^ (- e))).

Definition truthy (value : json) : bool :=
  match value with
  | JNull => false
  | JBool b => b
  | JNum m e => negb (is_zero m e)
  | JString [] => false
  | JString (_ :: _) => true
  | JArr _ | JObj _ => true
  end.

Definition truthy_opt (value : option json) : bool :=
  match value with
  | Some v => truthy v
  | None => false
  end.

(** [typeof value === 'object'] *)
Definition typeof_object (value : json) : bool :=
  match value with
  | JNull | JArr _ | JObj _ => true
  | _ => false
  end.

(** *** JSON.stringify

    The code stringifies objects that it has built itself, whose strings
    are strings of the model. *)

Definition hex_digit (n : N) : ascii :=
  if (n <? 10)%N then ascii_of_N (48 + n) else ascii_of_N (87 + n).

Definition escape_char (c : ascii) : string :=
  let n := N_of_ascii c in
  if Ascii.eqb c dquote then String backslash (String dquote EmptyString)
  else if Ascii.eqb c backslash then String backslash (String backslash EmptyString)
  else if (n =? 8)%N then "\b"
  else if (n =? 12)%N then "\f"
  else if (n =? 10)%N then "\n"
  else if (n =? 13)%N then "\r"
  else if (n =? 9)%N then "\t"
  else if (n <? 32)%N then
    "\u00" ++ String (hex_digit (n / 16)) (String (hex_digit (n mod 16)) EmptyString)
  else String c EmptyString.

Fixpoint escape (s : string) : string :=
  match s with
  | EmptyString => EmptyString
  | String c s' => escape_char c ++ escape s'
  end.

Definition quote (s : string) : string :=
  String dquote (escape s ++ String dquote EmptyString).

Definition digits (n : N) : string := NilEmpty.string_of_uint (N.to_uint n).

(** The text of an integer: all its digits, as [JSON.stringify] writes an
    integer up to [2 ^ 53] in magnitude. *)
Definition stringify_int (z : Z) : string :=
  if z <? 0 then String "-" (digits (Z.abs_N z)) else digits (Z.abs_N z).

Definition join_comma (pieces : list string) : string :=
  match pieces with
  | [] => EmptyString
  | p :: ps => fold_left (fun acc q => acc ++ String "," q) ps p
  end.

(** The text of an object, from its keys and the texts of their values, in
    the order in which the properties were created. *)
Definition stringify_object (fields : list (string * string)) : string :=
  "{" ++ join_comma (List.map (fun kv => quote (fst kv) ++ String ":" (snd kv)) fields)
      ++ "}".

(** *** JSON.parse *)

Definition is_ws (c : ascii) : bool :=
  let n := N_of_ascii c in
  ((n =? 32) || (n =? 9) || (n =? 10) || (n =? 13))%N.

Definition is_digit (c : ascii) : bool :=
  let n := N_of_ascii c in ((48 <=? n) && (n <=? 57))%N.

Fixpoint skip_ws (s : string) : string :=
  match s with
  | String c s' => if is_ws c then skip_ws s' else s
  | EmptyString => s
  end.

(** The longest prefix of digits, and what follows it. *)
Fixpoint span_digits (s : string) : string * string :=
  match s with
  | String c s' =>
      if is_digit c then
        let (ds, rest) := span_digits s' in (String c ds, rest)
      else (EmptyString, s)
  | EmptyString => (EmptyString, s)
  end.

Definition digits_value (ds : string) : N :=
  match NilEmpty.uint_of_string ds with
  | Some d => N.of_uint d
  | None => 0%N
  end.

(** The integer part of a literal: one digit at least, and no zero in
    front of another digit. *)
Definition int_part_ok (ds : string) : bool :=
  match ds with
  | EmptyString => false
  | String c EmptyString => true
  | String c _ => negb (Ascii.eqb c "0")
  end.

Definition parse_sign (s : string) : bool * string :=
  match s with
  | String c s' => if Ascii.eqb c "-" then (true, s') else (false, s)
  | EmptyString => (false, s)
  end.

Definition signed (neg : bool) (n : N) : Z :=
  if neg then - Z.of_N n else Z.of_N n.

(** The exponent part, when there is one: [e] or [E], an optional sign,
    digits. *)
Definition parse_exponent (s : string) : option (Z * string) :=
  match s with
  | String c s' =>
      if Ascii.eqb c "e" || Ascii.eqb c "E" then
        let (neg, s1) := match s' with
                         | String c' s'' =>
                             if Ascii.eqb c' "+" then (false, s'')
                             else if Ascii.eqb c' "-" then (true, s'')
                             else (false, s')
                         | EmptyString => (false, s')
                         end in
        let (es, rest) := span_digits s1 in
        match es with
        | EmptyString => None
        | _ => Some (signed neg (digits_value es), rest)
        end
      else Some (0, s)
  | EmptyString => Some (0, s)
  end.

(** A number literal: an optional minus sign, the integer part, an
    optional fraction and an optional exponent. *)
Definition parse_number (s : string) : option (json * string) :=
  let (neg, s0) := parse_sign s in
  let (ds, s1) := span_digits s0 in
  if int_part_ok ds then
    let frac :=
      match s1 with
      | String c s2 =>
          if Ascii.eqb c "." then
            let (fs, s3) := span_digits s2 in
            match fs with
            | EmptyString => None
            | _ => Some (fs, s3)
            end
          else Some (EmptyString, s1)
      | EmptyString => Some (EmptyString, s1)
      end in
    match frac with
    | Some (fs, s3) =>
        match parse_exponent s3 with
        | Some (e, rest) =>
            Some (JNum (signed neg (digits_value (ds ++ fs)))
                    (e - Z.of_nat (String.length fs)), rest)
        | None => None
        end
    | None => None
    end
  else None.

Definition hex_value (c : ascii) : option N :=
  let n := N_of_ascii c in
  if ((48 <=? n) && (n <=? 57))%N then Some (n - 48)%N
  else if ((97 <=? n) && (n <=? 102))%N then Some (n - 87)%N
  else if ((65 <=? n) && (n <=? 70))%N then Some (n - 55)%N
  else None.

(** [\uXXXX]: the code unit with these four hexadecimal digits. *)
Definition hex4 (h1 h2 h3 h4 : ascii) : option N :=
  match hex_value h1, hex_value h2, hex_value h3, hex_value h4 with
  | Some a, Some b, Some c, Some d => Some (4096 * a + 256 * b + 16 * c + d)%N
  | _, _, _, _ => None
  end.

Definition unescape (e : ascii) : option ascii :=
  if Ascii.eqb e dquote then Some dquote
  else if Ascii.eqb e backslash then Some backslash
  else if Ascii.eqb e "/" then Some "/"%char
  else if Ascii.eqb e "b" then Some "008"%char
  else if Ascii.eqb e "f" then Some "012"%char
  else if Ascii.eqb e "n" then Some "010"%char
  else if Ascii.eqb e "r" then Some "013"%char
  else if Ascii.eqb e "t" then Some "009"%char
  else None.

Definition cons_unit (u : N) (r : option (list N * string))
  : option (list N * string) :=
  match r with
  | Some (s, rest) => Some (u :: s, rest)
  | None => None
  end.

(** The characters of a string literal after its opening quote, up to
    and including the closing one: the code units that they denote. *)
Fixpoint parse_chars (s : string) : option (list N * string) :=
  match s with
  | EmptyString => None
  | String c rest =>
      if Ascii.eqb c dquote then Some ([], rest)
      else if Ascii.eqb c backslash then
        match rest with
        | EmptyString => None
        | String e rest1 =>
            if Ascii.eqb e "u" then
              match rest1 with
              | String h1 (String h2 (String h3 (String h4 rest2))) =>
                  match hex4 h1 h2 h3 h4 with
                  | Some u => cons_unit u (parse_chars rest2)
                  | None => None
                  end
              | _ => None
              end
            else
              match unescape e with
              | Some c' => cons_unit (N_of_ascii c') (parse_chars rest1)
              | None => None
              end
        end
      else if (N_of_ascii c <? 32)%N then None
      else cons_unit (N_of_ascii c) (parse_chars rest)
  end.

(** [s] starts with the keyword [kw]: what follows it. *)
Fixpoint expect (kw s : string) : option string :=
  match kw with
  | EmptyString => Some s
  | String k kw' =>
      match s with
      | String c s' => if Ascii.eqb c k then expect kw' s' else None
      | EmptyString => None
      end
  end.

Definition normalise (members : list (list N * json)) : list (list N * json) :=
  fold_left (fun acc kv => obj_set (fst kv) (snd kv) acc) members [].

(** Recursive descent.  A value, given the parsers of what may be
    nested in it: the elements of an array after its bracket, the
    members of an object after its brace. *)
Definition value_step
    (elements : string -> option (list json * string))
    (members : string -> option (list (list N * json) * string))
    (s : string) : option (json * string) :=
  match skip_ws s with
  | EmptyString => None
  | String c rest =>
      if Ascii.eqb c dquote then
        match parse_chars rest with
        | Some (str, r) => Some (JString str, r)
        | None => None
        end
      else if Ascii.eqb c "[" then
        match skip_ws rest with
        | String c' r =>
            if Ascii.eqb c' "]" then Some (JArr [], r)
            else match elements rest with
                 | Some (items, r') => Some (JArr items, r')
                 | None => None
                 end
        | EmptyString => None
        end
      else if Ascii.eqb c "{" then
        match skip_ws rest with
        | String c' r =>
            if Ascii.eqb c' "}" then Some (JObj [], r)
            else match members rest with
                 | Some (ms, r') => Some (JObj (normalise ms), r')
                 | None => None
                 end
        | EmptyString => None
        end
      else if Ascii.eqb c "t" then
        match expect "rue" rest with
        | Some r => Some (JBool true, r)
        | None => None
        end
      else if Ascii.eqb c "f" then
        match expect "alse" rest with
        | Some r => Some (JBool false, r)
        | None => None
        end
      else if Ascii.eqb c "n" then
        match expect "ull" rest with
        | Some r => Some (JNull, r)
        | None => None
        end
      else parse_number (String c rest)
  end.

(** One element, then a comma and more elements, or the closing
    bracket. *)
Definition elements_step
    (value : string -> option (json * string))
    (elements : string -> option (list json * string))
    (s : string) : option (list json * string) :=
  match value s with
  | Some (v, r) =>
      match skip_ws r with
      | String c r' =>
          if Ascii.eqb c "," then
            match elements r' with
            | Some (vs, r'') => Some (v :: vs, r'')
            | None => None
            end
          else if Ascii.eqb c "]" then Some ([v], r')
          else None
      | EmptyString => None
      end
  | None => None
  end.

(** One member, then a comma and more members, or the closing brace. *)
Definition members_step
    (value : string -> option (json * string))
    (members : string -> option (list (list N * json) * string))
    (s : string) : option (list (list N * json) * string) :=
  match skip_ws s with
  | String q r0 =>
      if Ascii.eqb q dquote then
        match parse_chars r0 with
        | Some (k, r1) =>
            match skip_ws r1 with
            | String c r2 =>
                if Ascii.eqb c ":" then
                  match value r2 with
                  | Some (v, r3) =>
                      match skip_ws r3 with
                      | String c' r4 =>
                          if Ascii.eqb c' "," then
                            match members r4 with
                            | Some (ms, r5) => Some ((k, v) :: ms, r5)
                            | None => None
                            end
                          else if Ascii.eqb c' "}" then Some ([(k, v)], r4)
                          else None
                      | EmptyString => None
                      end
                  | None => None
                  end
                else None
            | EmptyString => None
            end
        | None => None
        end
      else None
  | EmptyString => None
  end.

(** [fuel] bounds the depth of the calls. *)
Fixpoint parse_value (fuel : nat) (s : string) : option (json * string) :=
  match fuel with
  | O => None
  | S fuel' => value_step (parse_elements fuel') (parse_members fuel') s
  end

with parse_elements (fuel : nat) (s : string) : option (list json * string) :=
  match fuel with
  | O => None
  | S fuel' => elements_step (parse_value fuel') (parse_elements fuel') s
  end

with parse_members (fuel : nat) (s : string)
  : option (list (list N * json) * string) :=
  match fuel with
  | O => None
  | S fuel' => members_step (parse_value fuel') (parse_members fuel') s
  end.

(** [JSON.parse(text)]: [None] is the thrown [SyntaxError].  The fuel is
    more than any text of that length needs. *)
Definition parse (text : string) : option json :=
  match parse_value (2 * String.length text + 1) text with
  | Some (v, rest) =>
      match skip_ws rest with
      | EmptyString => Some v
      | _ => None
      end
  | None => None
  end.

End Json.

(** ** contexts/AuthContext.tsx *)

(** [User] of [types/index.ts]. *)
Inductive Role := WORKER | MANAGER.

(** [id] is an integer that a double holds exactly. *)
Record User := {
  id : Z;
  name : string;
  email : string;
  role : Role;
}.

Definition role_string (r : Role) : string :=
  match r with
  | WORKER => "WORKER"
  | MANAGER => "MANAGER"
  end.

(** The object that a [User] is at run time. *)
Definition user_value (u : User) : Json.json :=
  Json.JObj [(JS.units "id", Json.JNum (id u) 0);
             (JS.units "name", Json.JStr (name u));
             (JS.units "email", Json.JStr (email u));
             (JS.units "role", Json.JStr (role_string (role u)))].

(** [JSON.stringify(userData)] for a [User]. *)
Definition stringify_user (u : User) : string :=
  Json.stringify_object
    [("id", Json.stringify_int (id u));
     ("name", Json.quote (name u));
     ("email", Json.quote (email u));
     ("role", Json.quote (role_string (role u)))].

(** The browser as the session code sees it: [localStorage],
    [window.location.href], and the state of the mounted [AuthProvider]
    ([user] is [None] for [null]). *)
Record Browser := {
  localStorage : gmap string string;
  location_href : string;
  user : option Json.json;
  isLoading : bool;
}.

Definition getItem (k : string) (b : Browser) : option string :=
  localStorage b !! k.

Definition setItem (k v : string) (b : Browser) : Browser :=
  {| localStorage := <[k := v]> (localStorage b);
     location_href := location_href b;
     user := user b;
     isLoading := isLoading b |}.

Definition removeItem (k : string) (b : Browser) : Browser :=
  {| localStorage := delete k (localStorage b);
     location_href := location_href b;
     user := user b;
     isLoading := isLoading b |}.

Definition setUser (u : option Json.json) (b : Browser) : Browser :=
  {| localStorage := localStorage b;
     location_href := location_href b;
     user := u;
     isLoading := isLoading b |}.

Definition setIsLoading (l : bool) (b : Browser) : Browser :=
  {| localStorage := localStorage b;
     location_href := location_href b;
     user := user b;
     isLoading := l |}.

Definition set_location_href (url : string) (b : Browser) : Browser :=
  {| localStorage := localStorage b;
     location_href := url;
     user := user b;
     isLoading := isLoading b |}.

(** [userData && typeof userData === 'object' && userData.id &&
    userData.email && userData.role] *)
Definition valid_user_data (userData : Json.json) : bool :=
  Json.truthy userData && Json.typeof_object userData
  && Json.truthy_opt (Json.prop userData "id")
  && Json.truthy_opt (Json.prop userData "email")
  && Json.truthy_opt (Json.prop userData "role").

Definition purge (b : Browser) : Browser :=
  removeItem "safesnap_user" (removeItem "safesnap_token" b).

(** The effect that [AuthProvider] runs once, on mount. *)
Definition restore (b : Browser) : Browser :=
  let storedToken := getItem "safesnap_token" b in
  let storedUser := getItem "safesnap_user" b in
  let b' :=
    if JS.truthy_str storedToken && JS.truthy_str storedUser then
      match storedUser ≫= Json.parse with
      | Some userData =>
          if valid_user_data userData then setUser (Some userData) b
          else purge b
      | None => purge b
      end
    else b in
  setIsLoading false b'.

Definition login (token : string) (userData : User) (b : Browser) : Browser :=
  let b1 := setItem "safesnap_token" token b in
  let b2 := setItem "safesnap_user" (stringify_user userData) b1 in
  setUser (Some (user_value userData)) b2.

Definition logout (b : Browser) : Browser :=
  setUser None (removeItem "safesnap_user" (removeItem "safesnap_token" b)).

(** [!!user && !!localStorage.getItem('safesnap_token')], in the body of
    [AuthProvider]: [isAuthenticated b] is the value that a render in the
    state [b] puts in the context. *)
Definition isAuthenticated (b : Browser) : bool :=
  match user b with
  | Some u => Json.truthy u
  | None => false
  end && JS.truthy_str (getItem "safesnap_token" b).

(** A page load: the document is new, [AuthProvider] mounts with
    [useState(null)] and [useState(true)], its effect runs. *)
Definition mount (b : Browser) : Browser :=
  setIsLoading true (setUser None b).

Definition page_load (b : Browser) : Browser := restore (mount b).

(** *** The context value between renders

    [AuthProvider] computes the context value in its body, hence when it
    renders, and it renders when its state changes ([setUser],
    [setIsLoading]).  Code that writes [localStorage] or [window.location]
    only does not make it render: until the next render, [useAuth] gives
    the value of the last one.  A [Screen] is the browser as it is [now],
    with the state that [AuthProvider] last [rendered] from; what the
    consumers of the context show is computed from the latter. *)
Record Screen := {
  now : Browser;
  rendered : Browser;
}.

(** The screen once [AuthProvider] has rendered from the state [b]. *)
Definition render (b : Browser) : Screen := {| now := b; rendered := b |}.

(** The page load that an assignment to [window.location.href] starts: a
    new document over the same storage, which has rendered when the
    restore effect is through. *)
Definition reload (s : Screen) : Screen := render (page_load (now s)).

(** ** api/client.ts: the response interceptor *)

(** The body of an error response, as [ApiError] and [RateLimitError] read
    it. *)
Record ErrorData := {
  message : option string;
  retryAfterSeconds : option Z;
}.

(** [data] is [None] for the empty string that axios makes of an empty
    body. *)
Record ErrorResponse := {
  status : Z;
  data : option ErrorData;
}.

(** The request that failed, as [error.config] has it. *)
Record RequestConfig := {
  method : string;
  url : string;
}.

(** [AxiosError]: [response] is [None] when no response was received. *)
Record AxiosError := {
  config : RequestConfig;
  response : option ErrorResponse;
}.

(** What a rejected promise carries. *)
Inductive Error :=
| RateLimitExceeded (msg : option string) (retryAfter : option Z)
| ApiFailure (msg : string)
| AxiosFailure (e : AxiosError)
| UploadFailed (status : Z) (statusText : string)
| NetworkError
| TypeError.

Inductive Outcome (A : Type) :=
| Resolved (a : A)
| Rejected (e : Error).
Arguments Resolved {A} a.
Arguments Rejected {A} e.

Definition status_is (code : Z) (error : AxiosError) : bool :=
  match response error with
  | Some r => status r =? code
  | None => false
  end.

(** The rejection handler of [interceptors.response.use]: it always
    throws.  On a 429 without a body the two fields that the message
    quotes are [undefined]. *)
Definition response_rejected (error : AxiosError) (b : Browser) : Error * Browser :=
  let b' :=
    if status_is 401 error then
      set_location_href "/login"
        (removeItem "safesnap_user" (removeItem "safesnap_token" b))
    else b in
  if status_is 429 error then
    match response error ≫= data with
    | Some rateLimitError =>
        (RateLimitExceeded (message rateLimitError) (retryAfterSeconds rateLimitError), b')
    | None => (RateLimitExceeded None None, b')
    end
  else
    match response error ≫= data with
    | Some apiError =>
        (ApiFailure (default "An error occurred"
                       (JS.or_else (message apiError) (Some "An error occurred"))), b')
    | None => (AxiosFailure error, b')
    end.

(** The handler on a screen: it sets no state of React, so nothing
    renders. *)
Definition screen_response_rejected (error : AxiosError) (s : Screen)
  : Error * Screen :=
  (fst (response_rejected error (now s)),
   {| now := snd (response_rejected error (now s)); rendered := rendered s |}).

(** ** api/storage.ts and pages/CreateIncidentPage.tsx *)

Record File := {
  file_name : string;
  file_type : string;
}.

Inductive UploadKind := image | audio.

(** [response.data] of [POST /s3/upload-url]; the number of minutes is a
    whole number. *)
Record UploadUrlData := {
  data_uploadUrl : option string;
  data_s3Url : option string;
  data_fileUrl : option string;
  data_downloadUrl : option string;
  data_expiresInMinutes : option Z;
}.

Record PresignedUploadResponse := {
  uploadUrl : option string;
  fileUrl : option string;
  expiresInSeconds : JS.number;
}.

(** [response.data] of [GET /s3/file-exists]. *)
Record ExistsData := {
  exists_ : bool;
}.

(** The [Response] of [fetch]. *)
Record FetchResponse := {
  ok : bool;
  fetch_status : Z;
  statusText : string;
}.

Inductive Call :=
| POST_s3_upload_url (fileType : BackendFileType) (fileExtension : string)
| GET_s3_file_exists (s3Url : string)
| PUT (url : option string) (body : File) (contentType : string).

(** What the page does, in the order it does it. *)
Inductive Event :=
| Network (c : Call)
| SetIsUploading (v : bool)
| SetUploadedImages (urls : list (option string))
| SetUploadedAudio (urls : list (option string))
| SetFormError (msg : string).

(** The replies that the network holds ready, one per call. *)
Inductive Reply :=
| UploadUrlReply (o : Outcome UploadUrlData)
| FileExistsReply (o : Outcome ExistsData)
| FetchReply (o : Outcome FetchResponse).

(** The state of [CreateIncidentPage], the replies to come and the events
    so far (oldest first). *)
Record World := {
  uploadedImages : list (option string);
  uploadedAudio : list (option string);
  isUploading : bool;
  formError : option string;
  replies : list Reply;
  events : list Event;
}.

(** An asynchronous computation: it settles and leaves a world. *)
Definition M (A : Type) : Type := World -> Outcome A * World.

Definition ret {A} (a : A) : M A := fun w => (Resolved a, w).

Definition throw {A} (e : Error) : M A := fun w => (Rejected e, w).

Definition bind {A B} (m : M A) (k : A -> M B) : M B :=
  fun w =>
    match m w with
    | (Resolved a, w') => k a w'
    | (Rejected e, w') => (Rejected e, w')
    end.

Notation "'do' x <- m ; k" := (bind m (fun x => k))
  (at level 10, x name, m at level 100, k at level 200).
Notation "m ;; k" := (bind m (fun _ => k))
  (at level 100, k at level 200, right associativity).

(** [try { m } catch (error) { handler(error) }] *)
Definition try_catch {A} (m : M A) (handler : Error -> M A) : M A :=
  fun w =>
    match m w with
    | (Resolved a, w') => (Resolved a, w')
    | (Rejected e, w') => handler e w'
    end.

(** [try { m } finally { cleanup }] *)
Definition try_finally {A} (m : M A) (cleanup : M unit) : M A :=
  fun w =>
    match m w with
    | (o, w') =>
        match cleanup w' with
        | (Resolved _, w'') => (o, w'')
        | (Rejected e, w'') => (Rejected e, w'')
        end
    end.

Definition emit (ev : Event) (w : World) : World :=
  {| uploadedImages := uploadedImages w;
     uploadedAudio := uploadedAudio w;
     isUploading := isUploading w;
     formError := formError w;
     replies := replies w;
     events := events w ++ [ev] |}.

Definition next_reply (w : World) : option Reply * World :=
  match replies w with
  | r :: rs =>
      (Some r, {| uploadedImages := uploadedImages w;
                  uploadedAudio := uploadedAudio w;
                  isUploading := isUploading w;
                  formError := formError w;
                  replies := rs;
                  events := events w |})
  | [] => (None, w)
  end.

(** A network call: it is recorded, and settles as the next reply says.  A
    reply of another kind, or none, is a failed transport. *)
Definition apiClient_post_upload_url (fileType : BackendFileType)
    (fileExtension : string) : M UploadUrlData :=
  fun w =>
    match next_reply (emit (Network (POST_s3_upload_url fileType fileExtension)) w) with
    | (Some (UploadUrlReply o), w') => (o, w')
    | (_, w') => (Rejected NetworkError, w')
    end.

Definition apiClient_get_file_exists (s3Url : string) : M ExistsData :=
  fun w =>
    match next_reply (emit (Network (GET_s3_file_exists s3Url)) w) with
    | (Some (FileExistsReply o), w') => (o, w')
    | (_, w') => (Rejected NetworkError, w')
    end.

Definition fetch_put (url : option string) (body : File) (contentType : string)
  : M FetchResponse :=
  fun w =>
    match next_reply (emit (Network (PUT url body contentType)) w) with
    | (Some (FetchReply o), w') => (o, w')
    | (_, w') => (Rejected NetworkError, w')
    end.

(** [storageApi.getUploadUrl]; [USE_MOCK_S3] is the constant [false]. *)
Definition getUploadUrl (fileName fileType : string) : M PresignedUploadResponse :=
  let fileExtension := getFileExtension fileName in
  let backendFileType := getFileType fileType in
  do response_data <- apiClient_post_upload_url backendFileType fileExtension;
  let result :=
    {| uploadUrl := data_uploadUrl response_data;
       fileUrl := JS.or_else (JS.or_else (data_s3Url response_data)
                                (data_fileUrl response_data))
                    (data_downloadUrl response_data);
       expiresInSeconds := JS.times (data_expiresInMinutes response_data) 60 |} in
  ret result.

(** [storageApi.uploadFile] *)
Definition uploadFile (url : option string) (file : File) : M unit :=
  do response <- fetch_put url file (file_type file);
  if negb (ok response)
  then throw (UploadFailed (fetch_status response) (statusText response))
  else ret tt.

(** [storageApi.fileExists] *)
Definition fileExists (url : string) : M bool :=
  try_catch
    (do response_data <- apiClient_get_file_exists url;
     ret (exists_ response_data))
    (fun error => ret false).

Definition setIsUploading (v : bool) : M unit :=
  fun w =>
    (Resolved tt,
     emit (SetIsUploading v)
       {| uploadedImages := uploadedImages w;
          uploadedAudio := uploadedAudio w;
          isUploading := v;
          formError := formError w;
          replies := replies w;
          events := events w |}).

(** [setUploadedImages(f)] with an updater [f]. *)
Definition setUploadedImages (f : list (option string) -> list (option string))
  : M unit :=
  fun w =>
    (Resolved tt,
     emit (SetUploadedImages (f (uploadedImages w)))
       {| uploadedImages := f (uploadedImages w);
          uploadedAudio := uploadedAudio w;
          isUploading := isUploading w;
          formError := formError w;
          replies := replies w;
          events := events w |}).

Definition setUploadedAudio (f : list (option string) -> list (option string))
  : M unit :=
  fun w =>
    (Resolved tt,
     emit (SetUploadedAudio (f (uploadedAudio w)))
       {| uploadedImages := uploadedImages w;
          uploadedAudio := f (uploadedAudio w);
          isUploading := isUploading w;
          formError := formError w;
          replies := replies w;
          events := events w |}).

(** [form.setError('root', { message })] *)
Definition setFormError (msg : string) : M unit :=
  fun w =>
    (Resolved tt,
     emit (SetFormError msg)
       {| uploadedImages := uploadedImages w;
          uploadedAudio := uploadedAudio w;
          isUploading := isUploading w;
          formError := Some msg;
          replies := replies w;
          events := events w |}).

(** One turn of the loop of [handleFileUpload]. *)
Definition upload_one (type : UploadKind) (file : File) : M unit :=
  do grant <- getUploadUrl (file_name file) (file_type file);
  uploadFile (uploadUrl grant) file ;;
  match type with
  | image => setUploadedImages (fun prev => (prev ++ [fileUrl grant])%list)
  | audio => setUploadedAudio (fun prev => (prev ++ [fileUrl grant])%list)
  end.

(** [for (let i = 0; i < files.length; i++) { ... }] *)
Fixpoint upload_loop (type : UploadKind) (files : list File) : M unit :=
  match files with
  | [] => ret tt
  | file :: files' => upload_one type file ;; upload_loop type files'
  end.

(** [handleFileUpload]; [files] is [None] for [null]. *)
Definition handleFileUpload (files : option (list File)) (type : UploadKind) : M unit :=
  match files with
  | None | Some [] => ret tt
  | Some files =>
      setIsUploading true ;;
      try_finally
        (try_catch (upload_loop type files)
           (fun error => setFormError "Failed to upload files. Please try again."))
        (setIsUploading false)
  end.

(** [removeFile] *)
Definition removeFile (url : option string) (type : UploadKind) : M unit :=
  match type with
  | image => setUploadedImages (fun prev => filter (fun u => u <> url) prev)
  | audio => setUploadedAudio (fun prev => filter (fun u => u <> url) prev)
  end.

Definition is_network (ev : Event) : bool :=
  match ev with
  | Network _ => true
  | _ => false
  end.

Definition fresh_page (rs : list Reply) : World :=
  {| uploadedImages := [];
     uploadedAudio := [];
     isUploading := false;
     formError := None;
     replies := rs;
     events := [] |}.

(** ** Vocabulary of the properties *)

(** The first character of a printed integer. *)
Definition starts_number (c : ascii) : bool := Json.is_digit c || Ascii.eqb c "-".

(** [q] parses what [p] parses, on the texts shorter than [bound]. *)
Definition extends_on {A} (bound : nat) (p q : string -> option A) : Prop :=
  forall s x, (String.length s < bound)%nat -> p s = Some x -> q s = Some x.

(** What [p] parses, it parses by taking at least one character. *)
Definition consumes {A} (p : string -> option (A * string)) : Prop :=
  forall s x r, p s = Some (x, r) -> (String.length r < String.length s)%nat.

(** The persisted pair that the restore effect does not accept: an entry is
    missing, or the user blob does not parse, or it parses to a value that
    lacks [id], [email] or [role]. *)
Definition persisted_invalid (b : Browser) : Prop :=
  getItem "safesnap_token" b = None
  \/ getItem "safesnap_user" b = None
  \/ exists blob,
       getItem "safesnap_user" b = Some blob
       /\ (Json.parse blob = None
           \/ exists userData,
                Json.parse blob = Some userData
                /\ (Json.prop userData "id" = None
                    \/ Json.prop userData "email" = None
                    \/ Json.prop userData "role" = None)).

(** Both entries are there and neither is the empty string. *)
Definition both_stored (b : Browser) : bool :=
  JS.truthy_str (getItem "safesnap_token" b)
  && JS.truthy_str (getItem "safesnap_user" b).

(** A user blob stored without a token. *)
Definition stale_user_only : Browser :=
  {| localStorage := {[ "safesnap_user" := "{}" ]};
     location_href := "/";
     user := None;
     isLoading := true |}.

(** Both entries stored, the blob an object without the three
    properties. *)
Definition incomplete_session : Browser :=
  {| localStorage := {[ "safesnap_token" := "T1"; "safesnap_user" := "{}" ]};
     location_href := "/";
     user := None;
     isLoading := true |}.

(** A stored session whose email starts with a code unit above 255,
    written as an escape. *)
Definition wide_email_session : Browser :=
  {| localStorage :=
       {[ "safesnap_token" := "T1";
          "safesnap_user" :=
            Json.stringify_object
              [("id", "1");
               ("email",
                String Json.dquote ("\u0100@x.com" ++ String Json.dquote ""));
               ("role", Json.quote "WORKER")] ]};
     location_href := "/";
     user := None;
     isLoading := true |}.

(** A browser in which a worker is logged in. *)
Definition logged_in_browser : Browser :=
  login "T1" {| id := 1; name := "a"; email := "a@x.com"; role := WORKER |}
    {| localStorage := ∅; location_href := "/worker"; user := None; isLoading := false |}.

(** An error response with status 401 and no body. *)
Definition unauthorized : AxiosError :=
  {| config := {| method := "get"; url := "/incidents/frontend" |};
     response := Some {| status := 401; data := None |} |}.

(** A browser with nothing stored. *)
Definition empty_browser : Browser :=
  {| localStorage := ∅; location_href := "/login"; user := None; isLoading := false |}.

(** The identity that [authApi.login] makes for [a@x.com]. *)
Definition worker_a : User :=
  {| id := 1; name := "a"; email := "a@x.com"; role := WORKER |}.


(** The words of the specification: the first field that is present and
    not empty, in the order given. *)
Fixpoint first_present_non_empty (fields : list (option string)) : option string :=
  match fields with
  | [] => None
  | Some (String c s) :: _ => Some (String c s)
  | _ :: fields' => first_present_non_empty fields'
  end.

(** The grant of the scenario of the specification. *)
Definition sample_grant : UploadUrlData :=
  {| data_uploadUrl := Some "U";
     data_s3Url := None;
     data_fileUrl := Some "F";
     data_downloadUrl := None;
     data_expiresInMinutes := Some 60 |}.


(** How often [u] occurs in [l]. *)
Definition occurrences (u : option string) (l : list (option string)) : nat :=
  length (filter (fun x => x = u) l).

(** A task of a batch: the file, the answer to its grant request and the
    outcome of its transfer. *)
Record Task := {
  task_file : File;
  task_grant : UploadUrlData;
  task_put : Outcome FetchResponse;
}.

(** The replies that the two calls of a task get. *)
Definition task_replies (t : Task) : list Reply :=
  [UploadUrlReply (Resolved (task_grant t)); FetchReply (task_put t)].

(** The transfer goes through: [fetch] resolves and [response.ok] holds. *)
Definition transfer_ok (t : Task) : bool :=
  match task_put t with
  | Resolved r => ok r
  | Rejected _ => false
  end.

(** The public URL of a task. *)
Definition task_url (t : Task) : option string :=
  JS.or_else (JS.or_else (data_s3Url (task_grant t)) (data_fileUrl (task_grant t)))
    (data_downloadUrl (task_grant t)).

(** The two network calls of a task. *)
Definition task_calls (t : Task) : list Event :=
  [Network (POST_s3_upload_url (getFileType (file_type (task_file t)))
              (getFileExtension (file_name (task_file t))));
   Network (PUT (data_uploadUrl (task_grant t)) (task_file t)
              (file_type (task_file t)))].

(** The result list of a category. *)
Definition uploaded (type : UploadKind) (w : World) : list (option string) :=
  match type with
  | image => uploadedImages w
  | audio => uploadedAudio w
  end.

(** The event of setting it. *)
Definition SetUploaded (type : UploadKind) (urls : list (option string)) : Event :=
  match type with
  | image => SetUploadedImages urls
  | audio => SetUploadedAudio urls
  end.

(** The world after a task that went through. *)
Definition task_done (type : UploadKind) (w : World) (t : Task) : World :=
  {| uploadedImages :=
       match type with
       | image => (uploadedImages w ++ [task_url t])%list
       | audio => uploadedImages w
       end;
     uploadedAudio :=
       match type with
       | image => uploadedAudio w
       | audio => (uploadedAudio w ++ [task_url t])%list
       end;
     isUploading := isUploading w;
     formError := formError w;
     replies := tail (tail (replies w));
     events := (events w ++ task_calls t
                  ++ [SetUploaded type (uploaded type w ++ [task_url t])])%list |}.

(** The world after a task whose transfer failed. *)
Definition task_failed (w : World) (t : Task) : World :=
  {| uploadedImages := uploadedImages w;
     uploadedAudio := uploadedAudio w;
     isUploading := isUploading w;
     formError := formError w;
     replies := tail (tail (replies w));
     events := (events w ++ task_calls t)%list |}.

(** The events that set the uploading flag or the error message. *)
Definition is_state_event (ev : Event) : bool :=
  match ev with
  | SetIsUploading _ | SetFormError _ => true
  | _ => false
  end.

(** The one message of a failed batch. *)
Definition upload_error : string := "Failed to upload files. Please try again.".

(** The tasks that go through, one after the other. *)
Definition tasks_done (type : UploadKind) (w : World) (ts : list Task) : World :=
  fold_left (task_done type) ts w.

(** A batch of three photos. *)
Definition photo (n : string) : File :=
  {| file_name := n; file_type := "image/jpeg" |}.

Definition grant_for (u : string) : UploadUrlData :=
  {| data_uploadUrl := Some ("put:" ++ u)%string;
     data_s3Url := None;
     data_fileUrl := Some u;
     data_downloadUrl := None;
     data_expiresInMinutes := Some 60 |}.

Definition status_200 : FetchResponse :=
  {| ok := true; fetch_status := 200; statusText := "OK" |}.

Definition status_403 : FetchResponse :=
  {| ok := false; fetch_status := 403; statusText := "Forbidden" |}.

Definition task0 : Task :=
  {| task_file := photo "a.jpg"; task_grant := grant_for "url-a";
     task_put := Resolved status_200 |}.

Definition task1 : Task :=
  {| task_file := photo "b.jpg"; task_grant := grant_for "url-b";
     task_put := Resolved status_403 |}.

Definition task2 : Task :=
  {| task_file := photo "c.jpg"; task_grant := grant_for "url-c";
     task_put := Resolved status_200 |}.

(** Three files; the transfer of the second one is refused, the two others
    would go through. *)
Definition batch_of_three : World :=
  fresh_page (task_replies task0 ++ task_replies task1 ++ task_replies task2)%list.

(** ** api/auth.ts *)

Record LoginRequest := {
  login_email : string;
  login_password : string;
}.

Record RegisterRequest := {
  register_name : string;
  register_email : string;
  register_password : string;
  register_role : Role;
}.

(** What the backend answers to [/auth/login] and [/auth/register]. *)
Record BackendAuthResponse := {
  backend_token : string;
  backend_role : Role;
}.

Record AuthResponse := {
  auth_token : string;
  auth_user : User;
}.

(** [arr[0]] of an array of strings that [split] made (never empty). *)
Definition first_piece (arr : list string) : string :=
  match arr with
  | piece :: _ => piece
  | [] => EmptyString
  end.

(** [authApi.login], given how [apiClient.post('/auth/login', data)]
    settles. *)
Definition authApi_login (data : LoginRequest)
    (response : Outcome BackendAuthResponse) : Outcome AuthResponse :=
  match response with
  | Resolved response_data =>
      Resolved
        {| auth_token := backend_token response_data;
           auth_user :=
             {| id := 1;
                name := first_piece (JS.split "@" (login_email data));
                email := login_email data;
                role := backend_role response_data |} |}
  | Rejected e => Rejected e
  end.

(** [authApi.register], given how [apiClient.post('/auth/register', data)]
    settles. *)
Definition authApi_register (data : RegisterRequest)
    (response : Outcome BackendAuthResponse) : Outcome AuthResponse :=
  match response with
  | Resolved response_data =>
      Resolved
        {| auth_token := backend_token response_data;
           auth_user :=
             {| id := 1;
                name := register_name data;
                email := register_email data;
                role := backend_role response_data |} |}
  | Rejected e => Rejected e
  end.

(** [authApi.logout]: the two entries go, the React state is not in
    reach. *)
Definition authApi_logout (b : Browser) : Browser :=
  removeItem "safesnap_user" (removeItem "safesnap_token" b).

(** [authApi.logout] on a screen: nothing renders. *)
Definition screen_authApi_logout (s : Screen) : Screen :=
  {| now := authApi_logout (now s); rendered := rendered s |}.

(** ** api/client.ts: the request interceptor *)

(** An outgoing request: where it goes and its [Authorization] header. *)
Record OutgoingRequest := {
  out_method : string;
  out_url : string;
  Authorization : option string;
}.

(** The fulfilment handler of [interceptors.request.use]. *)
Definition request_fulfilled (config : OutgoingRequest) (b : Browser)
  : OutgoingRequest :=
  match getItem "safesnap_token" b with
  | Some token =>
      if JS.truthy_str (Some token) then
        {| out_method := out_method config;
           out_url := out_url config;
           Authorization := Some ("Bearer " ++ token) |}
      else config
  | None => config
  end.

(** ** App.tsx: the route guard and the routes *)

(** [value === s] for a string [s]. *)
Definition is_string (value : option Json.json) (s : string) : bool :=
  match value with
  | Some (Json.JString s') => JS.same_units s' (JS.units s)
  | _ => false
  end.

(** [user?.role] *)
Definition user_role (b : Browser) : option Json.json :=
  user b ≫= fun u => Json.prop u "role".

(** [!user] is [negb (has_user b)]. *)
Definition has_user (b : Browser) : bool :=
  match user b with
  | Some u => Json.truthy u
  | None => false
  end.

(** [user?.role === 'MANAGER' ? '/manager' : '/worker'] *)
Definition home (b : Browser) : string :=
  if is_string (user_role b) "MANAGER" then "/manager" else "/worker".

Inductive Page :=
| LoginPage
| WorkerDashboard
| ManagerDashboard
| CreateIncidentPage
| IncidentDetailPage
| EditIncidentPage.

(** What a route element renders. *)
Inductive Element :=
| Spinner
| Navigate (to : string)
| Render (page : Page).

(** [ProtectedRoute]; [requiredRole] is [None] when the prop is absent. *)
Definition ProtectedRoute (children : Page) (requiredRole : option Role)
    (b : Browser) : Element :=
  if isLoading b then Spinner
  else if negb (isAuthenticated b) || negb (has_user b) then Navigate "/login"
  else
    match requiredRole with
    | Some required =>
        if negb (is_string (user_role b) (role_string required))
        then Navigate (home b)
        else Render children
    | None => Render children
    end.

(** The routes of [AppRoutes], in the order of the source. *)
Inductive RoutePath :=
| route_login
| route_worker
| route_worker_incidents_new
| route_worker_incidents_id
| route_worker_incidents_id_edit
| route_manager
| route_manager_incidents_id
| route_root
| route_any.

(** The [element] of each route. *)
Definition route_element (r : RoutePath) (b : Browser) : Element :=
  match r with
  | route_login =>
      if negb (isAuthenticated b) then Render LoginPage else Navigate (home b)
  | route_worker => ProtectedRoute WorkerDashboard (Some WORKER) b
  | route_worker_incidents_new => ProtectedRoute CreateIncidentPage (Some WORKER) b
  | route_worker_incidents_id => ProtectedRoute IncidentDetailPage (Some WORKER) b
  | route_worker_incidents_id_edit => ProtectedRoute EditIncidentPage (Some WORKER) b
  | route_manager => ProtectedRoute ManagerDashboard (Some MANAGER) b
  | route_manager_incidents_id => ProtectedRoute IncidentDetailPage (Some MANAGER) b
  | route_root =>
      Navigate (if negb (isAuthenticated b) then "/login" else home b)
  | route_any => Navigate "/"
  end.

(** The route that one of the four paths the code navigates to matches;
    any other path falls to the last route. *)
Definition route_of (path : string) : RoutePath :=
  if String.eqb path "/login" then route_login
  else if String.eqb path "/worker" then route_worker
  else if String.eqb path "/manager" then route_manager
  else if String.eqb path "/" then route_root
  else route_any.

(** Follow the redirects from a route, [fuel] of them at most: the page
    that is shown in the end, if one is. *)
Fixpoint settle (fuel : nat) (r : RoutePath) (b : Browser) : option Page :=
  match route_element r b with
  | Render page => Some page
  | Spinner => None
  | Navigate to =>
      match fuel with
      | O => None
      | S fuel' => settle fuel' (route_of to) b
      end
  end.

(** ** pages/LoginPage.tsx *)

(** [navigate(path, { replace: true })] of the router: the location
    changes, the document stays. *)
Definition navigate (path : string) (b : Browser) : Browser :=
  set_location_href path b.

(** [onSuccess] of [loginMutation] and of [registerMutation]. *)
Definition onSuccess (data : AuthResponse) (b : Browser) : Browser :=
  let b' := login (auth_token data) (auth_user data) b in
  let targetPath :=
    match role (auth_user data) with
    | MANAGER => "/manager"
    | WORKER => "/worker"
    end in
  navigate targetPath b'.

(** [s.includes(c)] for one character. *)
Fixpoint has_char (c : ascii) (s : string) : bool :=
  match s with
  | EmptyString => false
  | String c' s' => Ascii.eqb c' c || has_char c s'
  end.

(** A stored session whose role is none of the two the application knows:
    the restore effect accepts it, since the role is a non-empty string. *)
Definition admin_browser : Browser :=
  {| localStorage :=
       {[ "safesnap_token" := "T1";
          "safesnap_user" :=
            Json.stringify_object
              [("id", "7");
               ("email", Json.quote "root@x.com");
               ("role", Json.quote "ADMIN")] ]};
     location_href := "/worker";
     user := None;
     isLoading := true |}.

(** The role of the session is one of the two. *)
Definition known_role (b : Browser) : bool :=
  is_string (user_role b) "WORKER" || is_string (user_role b) "MANAGER".

(** A token stored without a user blob. *)
Definition stale_token_only : Browser :=
  {| localStorage := {[ "safesnap_token" := "T0" ]};
     location_href := "/";
     user := None;
     isLoading := true |}.

(** A request on its way out, without an [Authorization] header. *)
Definition plain_request : OutgoingRequest :=
  {| out_method := "get"; out_url := "/incidents/frontend"; Authorization := None |}.

(** An error response with status 500 and a body without a message. *)
Definition server_error : AxiosError :=
  {| config := {| method := "post"; url := "/incidents" |};
     response := Some {| status := 500;
                         data := Some {| message := None;
                                         retryAfterSeconds := None |} |} |}.

(** ** pages/ManagerDashboard.tsx: filterValidImageUrls *)

(** The white space that [String.prototype.trim] removes, among the code
    units below 256. *)
Definition is_space (c : ascii) : bool :=
  let n := N_of_ascii c in
  ((9 <=? n) && (n <=? 13) || (n =? 32) || (n =? 160))%N.

Fixpoint trimStart (s : string) : string :=
  match s with
  | String c s' => if is_space c then trimStart s' else s
  | EmptyString => EmptyString
  end.

Fixpoint trimEnd (s : string) : string :=
  match s with
  | EmptyString => EmptyString
  | String c s' =>
      match trimEnd s' with
      | EmptyString => if is_space c then EmptyString else String c EmptyString
      | kept => String c kept
      end
  end.

(** [s.trim()] *)
Definition trim (s : string) : string := trimEnd (trimStart s).

(** [s.includes(sub)] *)
Fixpoint includes (s sub : string) : bool :=
  String.prefix sub s
  || match s with
     | String _ s' => includes s' sub
     | EmptyString => false
     end.

(** [debugTexts].  The source list ends with two pictographs, which are
    code units above 255: no string of the model holds them, so they
    exclude nothing here. *)
Definition debugTexts : list string :=
  ["uploading"; "uploaded"; "successfully"; "error"; "failed"].

(** The predicate that [filterValidImageUrls] filters with. *)
Definition valid_image_url (url : string) : bool :=
  if (String.length (trim url) =? 0)%nat then false
  else
    let trimmedUrl := trim url in
    if existsb (fun debug => includes (JS.toLowerCase trimmedUrl) debug) debugTexts
    then false
    else if JS.startsWith trimmedUrl "http://" || JS.startsWith trimmedUrl "https://"
    then true
    else false.

(** [filterValidImageUrls]; [urls] is [None] for [undefined]. *)
Definition filterValidImageUrls (urls : option (list string)) : list string :=
  match urls with
  | None => []
  | Some urls => List.filter valid_image_url urls
  end.

(** ** Vocabulary of the upload batch *)

Definition other_kind (type : UploadKind) : UploadKind :=
  match type with
  | image => audio
  | audio => image
  end.

(** How the task that stops a batch fails: at the grant request, or at the
    transfer. *)
Inductive Failure :=
| GrantFails (e : Error)
| TransferFails (grant : UploadUrlData) (put : Outcome FetchResponse).

(** A transfer that does not go through. *)
Definition put_fails (put : Outcome FetchResponse) : bool :=
  match put with
  | Resolved r => negb (ok r)
  | Rejected _ => true
  end.

Definition is_failure (f : Failure) : bool :=
  match f with
  | GrantFails _ => true
  | TransferFails _ put => put_fails put
  end.

Definition failure_replies (f : Failure) : list Reply :=
  match f with
  | GrantFails e => [UploadUrlReply (Rejected e)]
  | TransferFails grant put => [UploadUrlReply (Resolved grant); FetchReply put]
  end.

(** The calls made for the file of the failing task. *)
Definition failure_calls (file : File) (f : Failure) : list Event :=
  Network (POST_s3_upload_url (getFileType (file_type file))
             (getFileExtension (file_name file)))
  :: match f with
     | GrantFails _ => []
     | TransferFails grant _ =>
         [Network (PUT (data_uploadUrl grant) file (file_type file))]
     end.

(** How many network calls a list of events holds. *)
Definition network_calls (evs : list Event) : nat :=
  length (filter (fun ev => is_network ev = true) evs).

(** A PDF picked through the image input. *)
Definition pdf_task : Task :=
  {| task_file := {| file_name := "report.PDF"; file_type := "application/pdf" |};
     task_grant := grant_for "url-pdf";
     task_put := Resolved status_200 |}.

(** The events of a list that set the flag or the message. *)
Definition state_events (evs : list Event) : list Event :=
  filter (fun ev => is_state_event ev = true) evs.

(** A task whose grant carries no public URL at all. *)
Definition nameless_task : Task :=
  {| task_file := photo "a.jpg";
     task_grant := {| data_uploadUrl := Some "put:a";
                      data_s3Url := None;
                      data_fileUrl := Some "";
                      data_downloadUrl := None;
                      data_expiresInMinutes := Some 60 |};
     task_put := Resolved status_200 |}.

(** * Properties *)

(** ** Strings *)

Lemma append_nil_l (s : string) : "" ++ s = s.
Proof. reflexivity. Qed.

Lemma append_cons (c : ascii) (s t : string) :
  String c s ++ t = String c (s ++ t).
Proof. reflexivity. Qed.

Lemma prefix_nil (s : string) : String.prefix "" s = true.
Proof. by destruct s. Qed.

Lemma prefix_cons (c c' : ascii) (p s : string) :
  String.prefix (String c p) (String c' s)
  = if ascii_dec c c' then String.prefix p s else false.
Proof. reflexivity. Qed.

Lemma prefix_app (p s : string) :
  String.prefix p s = true <-> exists rest, s = p ++ rest.
Proof.
  revert s. induction p as [|c p IH]; intros s.
  - rewrite prefix_nil. split; [intros _; by exists s | done].
  - destruct s as [|c' s].
    + split; [done | intros [rest H]; discriminate H].
    + rewrite prefix_cons. destruct (ascii_dec c c') as [->|Hne].
      * rewrite IH. split; intros [rest H]; exists rest.
        -- by rewrite H.
        -- rewrite append_cons in H. by injection H.
      * split; [done | intros [rest H]; rewrite append_cons in H; injection H; congruence].
Qed.

(** ** File names and MIME types *)

(** C9. The bucket sent to the backend is [IMAGE] exactly when the MIME
    type starts with ["image/"], and [AUDIO] for every other string. *)
Theorem getFileType_image_iff_prefix (mimeType : string) :
  (getFileType mimeType = IMAGE <-> exists rest, mimeType = "image/" ++ rest)
  /\ (getFileType mimeType = AUDIO <-> ~ exists rest, mimeType = "image/" ++ rest).
Proof.
  unfold getFileType, JS.startsWith.
  pose proof (prefix_app "image/" mimeType) as H.
  destruct (String.prefix "image/" mimeType).
  - split; split; try done.
    + intros _. by apply H.
    + intros Hn. destruct Hn. by apply H.
  - split; split; try done.
    + intros Hex. apply H in Hex. discriminate Hex.
    + intros _ Hex. apply H in Hex. discriminate Hex.
Qed.

Lemma getFileType_image_iff_prefix_witness :
  (getFileType "image/png" = IMAGE <-> exists rest, "image/png" = "image/" ++ rest)
  /\ (getFileType "image/png" = AUDIO <-> ~ exists rest, "image/png" = "image/" ++ rest).
Proof. exact (getFileType_image_iff_prefix "image/png"). Defined.

Example getFileType_video : getFileType "video/mp4" = AUDIO.
Proof. reflexivity. Qed.
Example getFileType_application : getFileType "application/pdf" = AUDIO.
Proof. reflexivity. Qed.
Example getFileType_empty : getFileType "" = AUDIO.
Proof. reflexivity. Qed.
Example getFileType_upper : getFileType "IMAGE/PNG" = AUDIO.
Proof. reflexivity. Qed.

(** The pieces of [split]: one piece, the text itself, when it has no
    ['.']; otherwise the last piece is the text after the final ['.']. *)
Lemma split_dot_pieces (s : string) :
  exists p ps,
    JS.split "." s = p :: ps /\
    match after_final_dot s with
    | None => ps = [] /\ p = s
    | Some ext => last (p :: ps) = Some ext /\ ps <> []
    end.
Proof.
  induction s as [|c s (p & ps & Hs & IH)].
  - by exists EmptyString, [].
  - cbn [JS.split after_final_dot]. rewrite Hs.
    destruct (Ascii.eqb c ".").
    + exists EmptyString, (p :: ps). split; [done|].
      destruct (after_final_dot s) as [ext|].
      * destruct IH as [IH _]. by rewrite last_cons_cons.
      * destruct IH as [-> ->]. done.
    + exists (String c p), ps. split; [done|].
      destruct (after_final_dot s) as [ext|].
      * destruct IH as [IH Hne]. split; [|done].
        destruct ps as [|p' ps]; [done|]. by rewrite last_cons_cons in *.
      * destruct IH as [-> ->]. done.
Qed.

Lemma toLowerCase_empty (s : string) : JS.toLowerCase s = "" <-> s = "".
Proof. by destruct s. Qed.

(** What [getFileExtension] computes, in the words of the specification
    where the name has a ['.']. *)
Lemma getFileExtension_eq (fileName : string) :
  getFileExtension fileName
  = JS.toLowerCase (default fileName (after_final_dot fileName)).
Proof.
  unfold getFileExtension, JS.pop.
  destruct (split_dot_pieces fileName) as (p & ps & -> & H).
  assert (last (p :: ps) = Some (default fileName (after_final_dot fileName))) as ->.
  { destruct (after_final_dot fileName); [by destruct H|].
    destruct H as [-> ->]. done. }
  cbn [fmap option_fmap option_map]. unfold JS.or_else, JS.truthy_str.
  destruct (JS.toLowerCase _) as [|c s] eqn:E; reflexivity.
Qed.

(** A name with a ['.']: the lower-cased text after the final ['.']. *)
Lemma getFileExtension_with_dot (fileName ext : string) :
  after_final_dot fileName = Some ext ->
  getFileExtension fileName = JS.toLowerCase ext.
Proof. intros H. by rewrite getFileExtension_eq, H. Qed.

(** A name without ['.']: the whole name, lower-cased. *)
Lemma getFileExtension_without_dot (fileName : string) :
  after_final_dot fileName = None ->
  getFileExtension fileName = JS.toLowerCase fileName.
Proof. intros H. by rewrite getFileExtension_eq, H. Qed.

Example getFileExtension_photo : getFileExtension "photo.JPG" = "jpg".
Proof. reflexivity. Qed.
Example getFileExtension_two_dots : getFileExtension "a.b.TAR.Gz" = "gz".
Proof. reflexivity. Qed.
Example getFileExtension_trailing_dot : getFileExtension "x." = "".
Proof. reflexivity. Qed.
Example getFileExtension_empty_name : getFileExtension "" = "".
Proof. reflexivity. Qed.

(** C4. The name ["README"] has no ['.'], and the extension sent for it is
    ["readme"], not the empty string. *)
Theorem getFileExtension_README :
  after_final_dot "README" = None
  /\ getFileExtension "README" = "readme"
  /\ getFileExtension "README" <> "".
Proof. split; [reflexivity | split; [reflexivity | discriminate]]. Qed.



(** ** JSON: what is stringified parses back *)

Example parse_nested :
  Json.parse "[1, 2.50, -3e2, true, null, {}, []  ]"
  = Some (Json.JArr [Json.JNum 1 0; Json.JNum 250 (-2); Json.JNum (-3) 2;
                     Json.JBool true; Json.JNull; Json.JObj []; Json.JArr []]).
Proof. vm_compute. reflexivity. Qed.
Example parse_leading_zero : Json.parse "01" = None.
Proof. vm_compute. reflexivity. Qed.
Example parse_trailing_comma : Json.parse "[1,]" = None.
Proof. vm_compute. reflexivity. Qed.

Import Json.

Lemma append_assoc (s1 s2 s3 : string) : (s1 ++ s2) ++ s3 = s1 ++ s2 ++ s3.
Proof. induction s1 as [|c s1 IH]; [done|]. rewrite !append_cons. by rewrite IH. Qed.

Lemma append_nil_r (s : string) : s ++ "" = s.
Proof. induction s as [|c s IH]; [done|]. rewrite append_cons. by rewrite IH. Qed.

Lemma parse_chars_escape_char (c : ascii) (tail : string) :
  parse_chars (escape_char c ++ tail) = cons_unit (N_of_ascii c) (parse_chars tail).
Proof. destruct c as [[] [] [] [] [] [] [] []]; reflexivity. Qed.

(** A string literal parses back to the string it was made from. *)
Lemma parse_chars_escape (s rest : string) :
  parse_chars (escape s ++ String dquote rest) = Some (JS.units s, rest).
Proof.
  induction s as [|c s IH].
  - reflexivity.
  - cbn [escape]. rewrite append_assoc, parse_chars_escape_char, IH. reflexivity.
Qed.

Lemma span_digits_string_of_uint (d : Decimal.uint) (tail : string) :
  span_digits (NilEmpty.string_of_uint d ++ tail)
  = (NilEmpty.string_of_uint d ++ fst (span_digits tail), snd (span_digits tail)).
Proof.
  induction d as [|d IH|d IH|d IH|d IH|d IH|d IH|d IH|d IH|d IH|d IH];
    cbn [NilEmpty.string_of_uint]; rewrite ?append_cons, ?append_nil_l;
    [by destruct (span_digits tail)|..];
    cbn [span_digits]; rewrite IH; reflexivity.
Qed.

Lemma nzhead_not_D0 (d d' : Decimal.uint) : Decimal.nzhead d <> Decimal.D0 d'.
Proof. induction d; cbn; congruence. Qed.

(** The decimal digits of a number: no zero in front, unless it is ["0"]. *)
Lemma int_part_ok_digits (n : N) : int_part_ok (digits n) = true.
Proof.
  unfold digits. destruct n as [|p]; [reflexivity|]. cbn [N.to_uint].
  pose proof (DecimalPos.Unsigned.to_of (Pos.to_uint p)) as Hn.
  rewrite DecimalPos.Unsigned.of_to in Hn. cbn [N.to_uint] in Hn.
  pose proof (DecimalPos.Unsigned.to_uint_nonnil p) as Hnil.
  destruct (Pos.to_uint p) as [|d|d|d|d|d|d|d|d|d|d] eqn:E;
    try done; try (cbn; by destruct (NilEmpty.string_of_uint d)).
  exfalso. unfold Decimal.unorm in Hn. cbn [Decimal.nzhead] in Hn.
  destruct (Decimal.nzhead d) eqn:En; try congruence.
  - apply (DecimalPos.Unsigned.to_uint_nonzero p). rewrite E.
    congruence.
  - eapply nzhead_not_D0. eassumption.
Qed.

Lemma digits_value_digits (n : N) : digits_value (digits n) = n.
Proof.
  unfold digits_value, digits. rewrite NilEmpty.usu.
  apply DecimalN.Unsigned.of_to.
Qed.

Lemma digits_head (n : N) :
  exists c tail, digits n = String c tail /\ is_digit c = true.
Proof.
  unfold digits. destruct n as [|p]; [by exists "0"%char, EmptyString|].
  cbn [N.to_uint]. pose proof (DecimalPos.Unsigned.to_uint_nonnil p) as Hnil.
  destruct (Pos.to_uint p); [done|..]; cbn [NilEmpty.string_of_uint]; eauto.
Qed.

Lemma span_digits_digits (n : N) (rest : string) :
  span_digits (digits n ++ String "," rest) = (digits n, String "," rest).
Proof.
  unfold digits. rewrite span_digits_string_of_uint. cbn. by rewrite append_nil_r.
Qed.

(** A printed integer, followed by a comma, parses back to the integer. *)
Lemma parse_number_stringify_int (z : Z) (rest : string) :
  parse_number (stringify_int z ++ String "," rest)
  = Some (JNum z 0, String "," rest).
Proof.
  unfold stringify_int, parse_number. destruct (z <? 0) eqn:Hz.
  - rewrite append_cons. cbn [parse_sign]. cbn [Ascii.eqb Bool.eqb].
    rewrite span_digits_digits, int_part_ok_digits. cbn.
    rewrite append_nil_r, digits_value_digits. do 3 f_equal. unfold signed. lia.
  - destruct (digits_head (Z.abs_N z)) as (c & tail & Hd & Hc).
    assert (parse_sign (digits (Z.abs_N z) ++ String "," rest)
            = (false, digits (Z.abs_N z) ++ String "," rest)) as ->.
    { rewrite Hd, append_cons. unfold parse_sign.
      destruct c as [[] [] [] [] [] [] [] []]; try discriminate Hc; reflexivity. }
    rewrite span_digits_digits, int_part_ok_digits. cbn.
    rewrite append_nil_r, digits_value_digits. do 3 f_equal. unfold signed. lia.
Qed.

Lemma stringify_int_head (z : Z) :
  exists c tail, stringify_int z = String c tail /\ starts_number c = true.
Proof.
  unfold stringify_int. destruct (z <? 0).
  - by exists "-"%char, (digits (Z.abs_N z)).
  - destruct (digits_head (Z.abs_N z)) as (c & tail & -> & Hc).
    exists c, tail. split; [done|]. unfold starts_number. by rewrite Hc.
Qed.

Lemma parse_value_starts_number (fuel : nat) (c : ascii) (rest : string) :
  starts_number c = true ->
  parse_value (S fuel) (String c rest) = parse_number (String c rest).
Proof.
  intros Hc. destruct c as [[] [] [] [] [] [] [] []]; try discriminate Hc; reflexivity.
Qed.

Lemma parse_value_stringify_int (fuel : nat) (z : Z) (rest : string) :
  parse_value (S fuel) (stringify_int z ++ String "," rest)
  = Some (JNum z 0, String "," rest).
Proof.
  destruct (stringify_int_head z) as (c & tail & Hz & Hc).
  rewrite <- parse_number_stringify_int. rewrite Hz, append_cons.
  by apply parse_value_starts_number.
Qed.

Lemma parse_value_quote (fuel : nat) (s rest : string) :
  parse_value (S fuel) (quote s ++ rest) = Some (JStr s, rest).
Proof.
  unfold quote. rewrite append_cons, append_assoc, append_cons, append_nil_l.
  cbn [parse_value]. unfold value_step. cbn [skip_ws]. change (is_ws dquote) with false. cbn iota.
  change (Ascii.eqb dquote dquote) with true. cbn iota.
  by rewrite parse_chars_escape.
Qed.



Lemma quote_cons (s rest : string) :
  quote s ++ rest = String dquote (escape s ++ String dquote rest).
Proof. unfold quote. by rewrite append_cons, append_assoc, append_cons, append_nil_l. Qed.

(** One member of an object, followed by a comma and the other members. *)
Lemma parse_members_more (fuel : nat) (k body : string) (v : json)
    (r4 r5 : string) (ms : list (list N * json)) :
  parse_value fuel body = Some (v, String "," r4) ->
  parse_members fuel r4 = Some (ms, r5) ->
  parse_members (S fuel) (quote k ++ String ":" body)
  = Some ((JS.units k, v) :: ms, r5).
Proof.
  intros Hv Hms. rewrite quote_cons. cbn [parse_members]. unfold members_step. cbn [skip_ws].
  change (is_ws dquote) with false. cbn iota.
  change (Ascii.eqb dquote dquote) with true. cbn iota.
  rewrite parse_chars_escape. cbn [skip_ws]. change (is_ws ":") with false. cbn iota.
  change (Ascii.eqb ":" ":") with true. cbn iota. rewrite Hv.
  cbn [skip_ws]. change (is_ws ",") with false. cbn iota.
  change (Ascii.eqb "," ",") with true. cbn iota. by rewrite Hms.
Qed.

(** The last member of an object. *)
Lemma parse_members_last (fuel : nat) (k body : string) (v : json) (r4 : string) :
  parse_value fuel body = Some (v, String "}" r4) ->
  parse_members (S fuel) (quote k ++ String ":" body) = Some ([(JS.units k, v)], r4).
Proof.
  intros Hv. rewrite quote_cons. cbn [parse_members]. unfold members_step. cbn [skip_ws].
  change (is_ws dquote) with false. cbn iota.
  change (Ascii.eqb dquote dquote) with true. cbn iota.
  rewrite parse_chars_escape. cbn [skip_ws]. change (is_ws ":") with false. cbn iota.
  change (Ascii.eqb ":" ":") with true. cbn iota. rewrite Hv.
  cbn [skip_ws]. change (is_ws "}") with false. cbn iota.
  change (Ascii.eqb "}" ",") with false. cbn iota.
  change (Ascii.eqb "}" "}") with true. by cbn iota.
Qed.

(** The text that [JSON.stringify] makes of a user. *)
Lemma stringify_user_text (u : User) :
  stringify_user u
  = String "{"
      (quote "id" ++ String ":"
         (stringify_int (id u) ++ String ","
            (quote "name" ++ String ":"
               (quote (name u) ++ String ","
                  (quote "email" ++ String ":"
                     (quote (email u) ++ String ","
                        (quote "role" ++ String ":"
                           (quote (role_string (role u)) ++ "}")))))))).
Proof.
  unfold stringify_user, stringify_object.
  cbn [List.map fold_left join_comma fst snd].
  rewrite !append_cons, !append_nil_l. f_equal.
  rewrite !append_assoc, !append_cons, !append_assoc. reflexivity.
Qed.

(** The stored blob of a user parses back to the user. *)
Lemma parse_stringify_user (u : User) :
  parse (stringify_user u) = Some (user_value u).
Proof.
  unfold parse. rewrite stringify_user_text.
  set (members := quote "id" ++ _).
  assert (exists n, (2 * String.length (String "{" members) + 1 = 6 + n)%nat) as [n ->].
  { exists (2 * String.length (String "{" members) + 1 - 6)%nat.
    unfold members. rewrite quote_cons. change (escape "id") with "id".
    rewrite !append_cons. cbn [String.length]. lia. }
  assert (parse_members (5 + n) members
          = Some ([(JS.units "id", JNum (id u) 0);
                   (JS.units "name", JStr (name u));
                   (JS.units "email", JStr (email u));
                   (JS.units "role", JStr (role_string (role u)))], "")) as Hm.
  { unfold members.
    eapply parse_members_more; [apply parse_value_stringify_int|].
    eapply parse_members_more; [apply parse_value_quote|].
    eapply parse_members_more; [apply parse_value_quote|].
    eapply parse_members_last. apply parse_value_quote. }
  change (6 + n)%nat with (S (5 + n)).
  cbn [parse_value]. unfold value_step. cbn [skip_ws]. change (is_ws "{") with false. cbn iota.
  change (Ascii.eqb "{" dquote) with false. cbn iota.
  change (Ascii.eqb "{" "[") with false. cbn iota.
  change (Ascii.eqb "{" "{") with true. cbn iota.
  assert (skip_ws members = String dquote (escape "id" ++ String dquote
            (String ":" (stringify_int (id u) ++ String ","
              (quote "name" ++ String ":"
               (quote (name u) ++ String ","
                  (quote "email" ++ String ":"
                     (quote (email u) ++ String ","
                        (quote "role" ++ String ":"
                           (quote (role_string (role u)) ++ "}")))))))))) as ->.
  { unfold members. by rewrite quote_cons. }
  change (Ascii.eqb dquote "}") with false. cbn iota.
  rewrite Hm. reflexivity.
Qed.



(** ** JSON: the fuel of [parse] is enough *)

Lemma skip_ws_length (s : string) :
  (String.length (skip_ws s) <= String.length s)%nat.
Proof.
  induction s as [|c s IH]; [done|]. cbn [skip_ws].
  destruct (is_ws c); cbn [String.length] in *; lia.
Qed.

Lemma skip_ws_cons_length (s : string) (c : ascii) (rest : string) :
  skip_ws s = String c rest -> (String.length rest < String.length s)%nat.
Proof.
  intros H. pose proof (skip_ws_length s) as Hl. rewrite H in Hl.
  cbn [String.length] in Hl. lia.
Qed.

Lemma span_digits_length (s : string) :
  (String.length (snd (span_digits s)) <= String.length s)%nat
  /\ (fst (span_digits s) <> "" ->
      String.length (snd (span_digits s)) < String.length s)%nat.
Proof.
  induction s as [|c s [IH1 IH2]]; [done|]. cbn [span_digits].
  destruct (is_digit c); [|done].
  destruct (span_digits s) as [ds r]. cbn [fst snd String.length] in *.
  split; [lia|]. intros _. lia.
Qed.

Lemma cons_unit_Some (u : N) (o : option (list N * string)) (x : list N)
    (r : string) :
  cons_unit u o = Some (x, r) -> exists x', o = Some (x', r).
Proof. destruct o as [[x' r']|]; [|done]. cbn. intros [= <- <-]. eauto. Qed.

Lemma parse_chars_length_le (n : nat) (s : string) (x : list N) (r : string) :
  (String.length s <= n)%nat ->
  parse_chars s = Some (x, r) ->
  (String.length r < String.length s)%nat.
Proof.
  revert s x r. induction n as [|n IH]; intros s x r Hn H;
    destruct s as [|c s]; try done; cbn [String.length] in Hn; [lia|].
  cbn [parse_chars] in H. cbn [String.length].
  destruct (Ascii.eqb c dquote); [injection H as <- <-; lia|].
  destruct (Ascii.eqb c backslash).
  - destruct s as [|e s]; [done|]. cbn [String.length] in *.
    destruct (Ascii.eqb e "u").
    + destruct s as [|h1 [|h2 [|h3 [|h4 s]]]]; try done.
      destruct (hex4 h1 h2 h3 h4); [|done].
      apply cons_unit_Some in H as [x' H]. cbn [String.length] in *.
      apply IH in H; lia.
    + destruct (unescape e); [|done].
      apply cons_unit_Some in H as [x' H]. apply IH in H; lia.
  - destruct (N_of_ascii c <? 32)%N; [done|].
    apply cons_unit_Some in H as [x' H]. apply IH in H; lia.
Qed.

Lemma parse_chars_consumes : consumes parse_chars.
Proof. intros s x r. by apply (parse_chars_length_le (String.length s)). Qed.

Lemma expect_length (kw s r : string) :
  expect kw s = Some r -> (String.length r <= String.length s)%nat.
Proof.
  revert s. induction kw as [|k kw IH]; intros s H; cbn [expect] in H.
  - by injection H as <-.
  - destruct s as [|c s]; [done|]. destruct (Ascii.eqb c k); [|done].
    apply IH in H. cbn [String.length]. lia.
Qed.

Lemma parse_exponent_length (s : string) (e : Z) (r : string) :
  parse_exponent s = Some (e, r) -> (String.length r <= String.length s)%nat.
Proof.
  unfold parse_exponent. destruct s as [|c s]; [by intros [= <- <-]|].
  destruct (Ascii.eqb c "e" || Ascii.eqb c "E"); [|by intros [= <- <-]].
  set (signed_rest := match s with EmptyString => _ | _ => _ end).
  assert (String.length (snd signed_rest) <= String.length s)%nat as Hs.
  { unfold signed_rest. destruct s as [|c' s]; [done|].
    destruct (Ascii.eqb c' "+"); [cbn; lia|].
    destruct (Ascii.eqb c' "-"); cbn; lia. }
  destruct signed_rest as [neg s1]. cbn [snd] in Hs.
  pose proof (span_digits_length s1) as [Hl _].
  destruct (span_digits s1) as [es rest]. destruct es; [done|].
  intros [= <- <-]. cbn [snd String.length] in *. lia.
Qed.

Lemma int_part_ok_nonempty (ds : string) : int_part_ok ds = true -> ds <> "".
Proof. by destruct ds. Qed.

Lemma parse_number_consumes : consumes parse_number.
Proof.
  intros s v r. unfold parse_number.
  assert (String.length (snd (parse_sign s)) <= String.length s)%nat as Hsign.
  { unfold parse_sign. destruct s as [|c s]; [done|].
    destruct (Ascii.eqb c "-"); cbn; lia. }
  destruct (parse_sign s) as [neg s0]. cbn [snd] in Hsign.
  pose proof (span_digits_length s0) as [_ Hds].
  destruct (span_digits s0) as [ds s1]. cbn [fst snd] in Hds.
  destruct (int_part_ok ds) eqn:Hok; [|done].
  specialize (Hds (int_part_ok_nonempty _ Hok)).
  set (frac := match s1 with EmptyString => _ | _ => _ end).
  assert (forall fs s3, frac = Some (fs, s3) ->
            String.length s3 <= String.length s1)%nat as Hfrac.
  { unfold frac. intros fs s3. destruct s1 as [|c s2]; [by intros [= <- <-]|].
    destruct (Ascii.eqb c "."); [|by intros [= <- <-]].
    pose proof (span_digits_length s2) as [Hl _].
    destruct (span_digits s2) as [fs' s3']. destruct fs'; [done|].
    intros [= <- <-]. cbn [snd String.length] in *. lia. }
  destruct frac as [[fs s3]|]; [|done]. specialize (Hfrac _ _ eq_refl).
  destruct (parse_exponent s3) as [[e rest]|] eqn:He; [|done].
  apply parse_exponent_length in He. intros [= <- <-]. lia.
Qed.



Ltac split_match H :=
  repeat match type of H with
         | context [match ?x with _ => _ end] => destruct x eqn:?
         | context [if ?x then _ else _] => destruct x eqn:?
         end; try discriminate H.

Lemma value_step_consumes elements members :
  consumes elements -> consumes members -> consumes (value_step elements members).
Proof.
  intros He Hm s v r H. unfold value_step in H.
  destruct (skip_ws s) as [|c rest] eqn:Hs; [done|].
  apply skip_ws_cons_length in Hs.
  split_match H; try (injection H as <- <-);
    repeat match goal with
      | E : parse_chars _ = Some _ |- _ => apply parse_chars_consumes in E
      | E : expect _ _ = Some _ |- _ => apply expect_length in E
      | E : skip_ws _ = String _ _ |- _ => apply skip_ws_cons_length in E
      | E : elements _ = Some _ |- _ => apply He in E
      | E : members _ = Some _ |- _ => apply Hm in E
      end; try lia.
  apply parse_number_consumes in H. cbn [String.length] in H. lia.
Qed.

Lemma elements_step_consumes value elements :
  consumes value -> consumes elements -> consumes (elements_step value elements).
Proof.
  intros Hv He s v r H. unfold elements_step in H.
  split_match H; try (injection H as <- <-);
    repeat match goal with
      | E : skip_ws _ = String _ _ |- _ => apply skip_ws_cons_length in E
      | E : value _ = Some _ |- _ => apply Hv in E
      | E : elements _ = Some _ |- _ => apply He in E
      end; lia.
Qed.

Lemma members_step_consumes value members :
  consumes value -> consumes members -> consumes (members_step value members).
Proof.
  intros Hv Hm s v r H. unfold members_step in H.
  split_match H; try (injection H as <- <-);
    repeat match goal with
      | E : parse_chars _ = Some _ |- _ => apply parse_chars_consumes in E
      | E : skip_ws _ = String _ _ |- _ => apply skip_ws_cons_length in E
      | E : value _ = Some _ |- _ => apply Hv in E
      | E : members _ = Some _ |- _ => apply Hm in E
      end; lia.
Qed.

(** Every parser takes at least one character. *)
Lemma parse_consumes (fuel : nat) :
  consumes (parse_value fuel) /\ consumes (parse_elements fuel)
  /\ consumes (parse_members fuel).
Proof.
  induction fuel as [|fuel (Hv & He & Hm)]; [by repeat split|].
  split; [|split]; cbn [parse_value parse_elements parse_members].
  - by apply value_step_consumes.
  - by apply elements_step_consumes.
  - by apply members_step_consumes.
Qed.

(** A step asks its parsers about shorter texts only. *)
Lemma value_step_extends elements elements' members members' (s : string) res :
  extends_on (String.length s) elements elements' ->
  extends_on (String.length s) members members' ->
  value_step elements members s = Some res ->
  value_step elements' members' s = Some res.
Proof.
  intros He Hm H. unfold value_step in *.
  destruct (skip_ws s) as [|c rest] eqn:Hs; [done|].
  apply skip_ws_cons_length in Hs.
  split_match H;
    repeat match goal with
      | E : elements _ = Some _ |- _ => apply He in E; [rewrite E|lia]
      | E : members _ = Some _ |- _ => apply Hm in E; [rewrite E|lia]
      end; done.
Qed.

Lemma elements_step_extends value value' elements elements' (s : string) res :
  consumes value ->
  extends_on (S (String.length s)) value value' ->
  extends_on (String.length s - 1) elements elements' ->
  elements_step value elements s = Some res ->
  elements_step value' elements' s = Some res.
Proof.
  intros Hc Hv He H. unfold elements_step in *.
  destruct (value s) as [[v r]|] eqn:Ev; [|done].
  pose proof (Hc _ _ _ Ev) as Hr. apply Hv in Ev; [rewrite Ev|lia].
  split_match H;
    repeat match goal with
      | E : skip_ws _ = String _ _ |- _ => apply skip_ws_cons_length in E
      | E : elements _ = Some _ |- _ => apply He in E; [rewrite E|lia]
      end; done.
Qed.

Lemma members_step_extends value value' members members' (s : string) res :
  consumes value ->
  extends_on (String.length s) value value' ->
  extends_on (String.length s - 1) members members' ->
  members_step value members s = Some res ->
  members_step value' members' s = Some res.
Proof.
  intros Hc Hv Hm H. unfold members_step in *.
  destruct (skip_ws s) as [|q r0] eqn:Hs; [done|].
  apply skip_ws_cons_length in Hs.
  destruct (Ascii.eqb q dquote); [|done].
  destruct (parse_chars r0) as [[k r1]|] eqn:Ek; [|done].
  apply parse_chars_consumes in Ek.
  destruct (skip_ws r1) as [|c r2] eqn:Hs1; [done|].
  apply skip_ws_cons_length in Hs1.
  destruct (Ascii.eqb c ":"); [|done].
  destruct (value r2) as [[v r3]|] eqn:Ev; [|done].
  pose proof (Hc _ _ _ Ev) as Hr. apply Hv in Ev; [rewrite Ev|lia].
  split_match H;
    repeat match goal with
      | E : skip_ws _ = String _ _ |- _ => apply skip_ws_cons_length in E
      | E : members _ = Some _ |- _ => apply Hm in E; [rewrite E|lia]
      end; done.
Qed.

(** More fuel parses what less fuel parses. *)
Lemma parse_more_fuel (fuel : nat) :
  (forall n, extends_on n (parse_value fuel) (parse_value (S fuel)))
  /\ (forall n, extends_on n (parse_elements fuel) (parse_elements (S fuel)))
  /\ (forall n, extends_on n (parse_members fuel) (parse_members (S fuel))).
Proof.
  induction fuel as [|fuel (Hv & He & Hm)]; [by repeat split|].
  destruct (parse_consumes fuel) as (Cv & Ce & Cm).
  split; [|split]; intros n s x _ H.
  - revert H. apply value_step_extends; auto.
  - revert H. apply elements_step_extends; auto.
  - revert H. apply members_step_extends; auto.
Qed.

Lemma parse_fuel_le (fuel fuel' : nat) :
  (fuel <= fuel')%nat ->
  (forall n, extends_on n (parse_value fuel) (parse_value fuel'))
  /\ (forall n, extends_on n (parse_elements fuel) (parse_elements fuel'))
  /\ (forall n, extends_on n (parse_members fuel) (parse_members fuel')).
Proof.
  induction 1 as [|fuel' _ (Hv & He & Hm)]; [repeat split; by intros n s x _ H|].
  destruct (parse_more_fuel fuel') as (Hv' & He' & Hm').
  split; [|split]; intros n s x Hn H.
  - by apply (Hv' n), (Hv n).
  - by apply (He' n), (He n).
  - by apply (Hm' n), (Hm n).
Qed.

Lemma parse_value_le (fuel fuel' : nat) (s : string) res :
  (fuel <= fuel')%nat -> parse_value fuel s = Some res -> parse_value fuel' s = Some res.
Proof.
  intros Hle. destruct (parse_fuel_le _ _ Hle) as (H & _ & _).
  apply (H (S (String.length s))). lia.
Qed.

Lemma parse_elements_le (fuel fuel' : nat) (s : string) res :
  (fuel <= fuel')%nat ->
  parse_elements fuel s = Some res -> parse_elements fuel' s = Some res.
Proof.
  intros Hle. destruct (parse_fuel_le _ _ Hle) as (_ & H & _).
  apply (H (S (String.length s))). lia.
Qed.

Lemma parse_members_le (fuel fuel' : nat) (s : string) res :
  (fuel <= fuel')%nat ->
  parse_members fuel s = Some res -> parse_members fuel' s = Some res.
Proof.
  intros Hle. destruct (parse_fuel_le _ _ Hle) as (_ & _ & H).
  apply (H (S (String.length s))). lia.
Qed.

(** What any fuel parses, a fuel of twice the length parses. *)
Lemma parse_fuel_bound (fuel : nat) :
  (forall s res, parse_value fuel s = Some res ->
                 parse_value (2 * String.length s + 1) s = Some res)
  /\ (forall s res, parse_elements fuel s = Some res ->
                    parse_elements (2 * String.length s + 2) s = Some res)
  /\ (forall s res, parse_members fuel s = Some res ->
                    parse_members (2 * String.length s + 2) s = Some res).
Proof.
  induction fuel as [|fuel (Hv & He & Hm)]; [by repeat split|].
  destruct (parse_consumes fuel) as (Cv & Ce & Cm).
  split; [|split]; intros s res H.
  - replace (2 * String.length s + 1)%nat with (S (2 * String.length s)) by lia.
    revert H. cbn [parse_value]. apply value_step_extends.
    + intros s' x Hs' H. apply He in H.
      eapply parse_elements_le; [|exact H]. lia.
    + intros s' x Hs' H. apply Hm in H.
      eapply parse_members_le; [|exact H]. lia.
  - replace (2 * String.length s + 2)%nat with (S (2 * String.length s + 1)) by lia.
    revert H. cbn [parse_elements]. apply elements_step_extends; [done|..].
    + intros s' x Hs' H. apply Hv in H.
      eapply parse_value_le; [|exact H]. lia.
    + intros s' x Hs' H. apply He in H.
      eapply parse_elements_le; [|exact H]. lia.
  - replace (2 * String.length s + 2)%nat with (S (2 * String.length s + 1)) by lia.
    revert H. cbn [parse_members]. apply members_step_extends; [done|..].
    + intros s' x Hs' H. apply Hv in H.
      eapply parse_value_le; [|exact H]. lia.
    + intros s' x Hs' H. apply Hm in H.
      eapply parse_members_le; [|exact H]. lia.
Qed.

(** [JSON.parse] in the model never fails for lack of fuel: a text that
    parses with some fuel parses with the fuel that [parse] gives. *)
Theorem parse_fuel_adequate (fuel : nat) (text : string) (v : json) (rest : string) :
  parse_value fuel text = Some (v, rest) ->
  parse_value (2 * String.length text + 1) text = Some (v, rest).
Proof. apply parse_fuel_bound. Qed.



(** ** The session *)

Lemma getItem_purge_token (b : Browser) : getItem "safesnap_token" (purge b) = None.
Proof.
  unfold purge, getItem, removeItem. cbn.
  rewrite lookup_delete_ne by done. apply lookup_delete_eq.
Qed.

Lemma getItem_purge_user (b : Browser) : getItem "safesnap_user" (purge b) = None.
Proof. unfold purge, getItem, removeItem. cbn. apply lookup_delete_eq. Qed.

(** A value without one of the three properties is not a valid user. *)
Lemma valid_user_data_props (userData : Json.json) :
  valid_user_data userData = true ->
  is_Some (Json.prop userData "id")
  /\ is_Some (Json.prop userData "email")
  /\ is_Some (Json.prop userData "role").
Proof.
  unfold valid_user_data. rewrite !andb_true_iff.
  intros [[[_ Hid] Hemail] Hrole].
  destruct (Json.prop userData "id"); [|done].
  destruct (Json.prop userData "email"); [|done].
  destruct (Json.prop userData "role"); [|done].
  eauto.
Qed.

(** C1 (amended). For every persisted pair where an entry is missing, or
    the user blob does not parse, or it parses but lacks [id], [email] or
    [role], the restore effect leaves the session not authenticated: the
    in-memory user stays [null].  When both entries are stored and not
    empty, both are removed; otherwise storage is left as it was. *)
Theorem restore_fails_closed (b : Browser) :
  user b = None ->
  persisted_invalid b ->
  user (restore b) = None
  /\ isAuthenticated (restore b) = false
  /\ (both_stored b = true ->
      getItem "safesnap_token" (restore b) = None
      /\ getItem "safesnap_user" (restore b) = None)
  /\ (both_stored b = false -> localStorage (restore b) = localStorage b).
Proof.
  intros Hu Hinv.
  assert (user (restore b) = None
          /\ (both_stored b = true ->
              getItem "safesnap_token" (restore b) = None
              /\ getItem "safesnap_user" (restore b) = None)
          /\ (both_stored b = false -> localStorage (restore b) = localStorage b))
    as (H1 & H2 & H3).
  { unfold restore, both_stored.
    destruct (JS.truthy_str (getItem "safesnap_token" b)
              && JS.truthy_str (getItem "safesnap_user" b)) eqn:Hboth.
    - apply andb_true_iff in Hboth as [Ht Hs].
      destruct (getItem "safesnap_token" b) as [tok|] eqn:Etok; [|done].
      destruct (getItem "safesnap_user" b) as [blob|] eqn:Eblob; [|done].
      cbn [mbind option_bind].
      destruct Hinv as [?|[?|(blob' & Hb & Hinv)]]; [congruence|congruence|].
      assert (blob' = blob) as -> by congruence.
      destruct (Json.parse blob) as [userData|] eqn:Ep.
      + destruct Hinv as [?|(ud & Hud & Hlack)]; [done|]. injection Hud as <-.
        destruct (valid_user_data userData) eqn:Hv.
        * apply valid_user_data_props in Hv as ([? Hid] & [? Hem] & [? Hro]).
          destruct Hlack as [?|[?|?]]; congruence.
        * cbn. rewrite Hu. split; [done|]. split; [|done]. intros _.
          split; [apply getItem_purge_token | apply getItem_purge_user].
      + cbn. rewrite Hu. split; [done|]. split; [|done]. intros _.
        split; [apply getItem_purge_token | apply getItem_purge_user].
    - cbn. rewrite Hu. done. }
  split; [done|]. split; [|done].
  unfold isAuthenticated. by rewrite H1.
Qed.

(** C1, as stated, fails: with the token missing and a user blob stored,
    the restore effect leaves the blob in storage. *)
Lemma restore_keeps_stale_user :
  user stale_user_only = None
  /\ getItem "safesnap_token" stale_user_only = None
  /\ getItem "safesnap_user" (restore stale_user_only) = Some "{}".
Proof. vm_compute. done. Qed.

Lemma restore_fails_closed_witness :
  user (restore incomplete_session) = None
  /\ isAuthenticated (restore incomplete_session) = false
  /\ getItem "safesnap_token" (restore incomplete_session) = None
  /\ getItem "safesnap_user" (restore incomplete_session) = None.
Proof.
  destruct (restore_fails_closed incomplete_session) as (Hu & Ha & Hp & _).
  - reflexivity.
  - right; right. exists "{}". split; [vm_compute; reflexivity|].
    right. exists (Json.JObj []). split; [vm_compute; reflexivity|].
    left. reflexivity.
  - destruct Hp as [Ht Hb]; [vm_compute; reflexivity|]. done.
Defined.

(** An escape for a code unit above 255 is JSON like any other: the blob
    parses, the email is a non-empty string, and the session is restored
    with storage as it was. *)
Example restore_accepts_wide_escape :
  let b := restore wide_email_session in
  (user b ≫= fun u => Json.prop u "email")
  = Some (Json.JString [256; 64; 120; 46; 99; 111; 109]%N)
  /\ isAuthenticated b = true
  /\ localStorage b = localStorage wide_email_session.
Proof. vm_compute. done. Qed.

(** Both entries stored, the blob not JSON: both entries go. *)
Example restore_purges_unparsable_user :
  getItem "safesnap_token"
    (restore {| localStorage := {[ "safesnap_token" := "T1"; "safesnap_user" := "{id:1" ]};
                location_href := "/";
                user := None;
                isLoading := true |})
  = None.
Proof. vm_compute. reflexivity. Qed.

(** ** The response interceptor *)

(** What the handler leaves of the browser after a 401. *)
Lemma response_rejected_401 (error : AxiosError) (b : Browser) :
  status_is 401 error = true ->
  snd (response_rejected error b) = set_location_href "/login" (purge b).
Proof.
  intros He. unfold response_rejected. rewrite He.
  destruct (status_is 429 error); by destruct (response error ≫= data).
Qed.

(** A page load over a storage without a token restores nothing. *)
Lemma page_load_no_token (b : Browser) :
  getItem "safesnap_token" b = None ->
  page_load b = setIsLoading false (mount b).
Proof.
  intros Ht. unfold page_load, restore.
  change (getItem "safesnap_token" (mount b)) with (getItem "safesnap_token" b).
  by rewrite Ht.
Qed.

(** C3 (amended). For every error response with status 401, whatever the
    request was, the interceptor removes both persisted entries and sets
    the location to [/login].  It leaves the in-memory session alone: the
    user state is what it was, and so is the context value of the last
    render.  The in-memory session ends with the page load that the new
    location starts, which begins without a user and restores none. *)
Theorem response_401_clears_storage (error : AxiosError) (r : ErrorResponse)
    (s : Screen) :
  response error = Some r ->
  status r = 401 ->
  let s' := snd (screen_response_rejected error s) in
  getItem "safesnap_token" (now s') = None
  /\ getItem "safesnap_user" (now s') = None
  /\ location_href (now s') = "/login"
  /\ (forall k, k <> "safesnap_token" -> k <> "safesnap_user" ->
        getItem k (now s') = getItem k (now s))
  /\ user (now s') = user (now s)
  /\ rendered s' = rendered s
  /\ user (now (reload s')) = None
  /\ isAuthenticated (rendered (reload s')) = false
  /\ rendered (reload s') = now (reload s')
  /\ localStorage (now (reload s')) = localStorage (now s').
Proof.
  intros Hr Hs. cbn zeta. unfold screen_response_rejected, reload, render.
  cbn [snd now rendered].
  rewrite response_rejected_401 by (unfold status_is; rewrite Hr; by apply Z.eqb_eq).
  set (b' := set_location_href "/login" (purge (now s))).
  assert (getItem "safesnap_token" b' = None) as Ht by apply getItem_purge_token.
  rewrite (page_load_no_token b' Ht).
  repeat split; try done; [apply getItem_purge_user|].
  intros k Hkt Hku. unfold b', purge, getItem, removeItem. cbn.
  by rewrite !lookup_delete_ne.
Qed.

(** C3, as stated, fails: with a worker logged in, the user is still in
    memory after the interceptor has handled a 401, and the context still
    says that the session is authenticated. *)
Lemma response_401_keeps_user_in_memory :
  let s' := snd (screen_response_rejected unauthorized (render logged_in_browser)) in
  status_is 401 unauthorized = true
  /\ user (now s') = Some (user_value worker_a)
  /\ user (now s') <> None
  /\ isAuthenticated (rendered s') = true.
Proof. vm_compute. repeat split; discriminate. Qed.

Lemma response_401_clears_storage_witness :
  let s' := snd (screen_response_rejected unauthorized (render logged_in_browser)) in
  getItem "safesnap_token" (now s') = None
  /\ getItem "safesnap_user" (now s') = None
  /\ location_href (now s') = "/login"
  /\ (forall k, k <> "safesnap_token" -> k <> "safesnap_user" ->
        getItem k (now s') = getItem k logged_in_browser)
  /\ user (now s') = user logged_in_browser
  /\ rendered s' = logged_in_browser
  /\ user (now (reload s')) = None
  /\ isAuthenticated (rendered (reload s')) = false
  /\ rendered (reload s') = now (reload s')
  /\ localStorage (now (reload s')) = localStorage (now s').
Proof.
  apply (response_401_clears_storage unauthorized {| status := 401; data := None |}
           (render logged_in_browser)); reflexivity.
Defined.

(** ** Login, then a fresh start *)

Lemma truthy_str_Some (s : string) : s <> "" -> JS.truthy_str (Some s) = true.
Proof. intros H. by destruct s. Qed.

Lemma valid_user_value (u : User) :
  id u <> 0 -> email u <> "" -> valid_user_data (user_value u) = true.
Proof.
  intros Hid Hemail. unfold valid_user_data.
  change (prop (user_value u) "id") with (Some (JNum (id u) 0)).
  change (prop (user_value u) "email") with (Some (JStr (email u))).
  change (prop (user_value u) "role") with (Some (JStr (role_string (role u)))).
  cbn [truthy typeof_object user_value truthy_opt andb].
  unfold is_zero. apply Z.eqb_neq in Hid as ->. change (0 <? 0) with false.
  rewrite andb_false_l. cbn [orb negb andb].
  destruct (email u); [done|]. by destruct (role u).
Qed.

(** Where the round trip holds: for every token that is not empty and every
    identity whose [id] is not zero, and is written with all its digits,
    and whose [email] is not empty, [login] followed by a fresh start over
    the same storage restores an in-memory identity equal to the one
    passed to [login], and the session is authenticated. *)
Theorem login_then_restore (token : string) (u : User) (b : Browser) :
  token <> "" ->
  id u <> 0 ->
  Z.abs (id u) <= 2 ^ 53 ->
  email u <> "" ->
  user (page_load (login token u b)) = Some (user_value u)
  /\ isAuthenticated (page_load (login token u b)) = true
  /\ getItem "safesnap_token" (page_load (login token u b)) = Some token.
Proof.
  intros Htoken Hid _ Hemail.
  assert (getItem "safesnap_token" (mount (login token u b)) = Some token) as Ht.
  { unfold getItem. cbn. rewrite lookup_insert_ne by done. apply lookup_insert_eq. }
  assert (getItem "safesnap_user" (mount (login token u b))
          = Some (stringify_user u)) as Hu.
  { unfold getItem. cbn. apply lookup_insert_eq. }
  assert (page_load (login token u b)
          = setIsLoading false (setUser (Some (user_value u)) (mount (login token u b))))
    as ->.
  { unfold page_load, restore. rewrite Ht, Hu.
    rewrite (truthy_str_Some token Htoken).
    assert (JS.truthy_str (Some (stringify_user u)) = true) as ->.
    { by rewrite stringify_user_text. }
    cbn [andb mbind option_bind]. rewrite parse_stringify_user.
    by rewrite valid_user_value. }
  split; [reflexivity|]. split; [|exact Ht].
  unfold isAuthenticated.
  change (getItem "safesnap_token" (setIsLoading _ (setUser _ ?x)))
    with (getItem "safesnap_token" x).
  rewrite Ht, (truthy_str_Some token Htoken). reflexivity.
Qed.

Lemma login_then_restore_witness :
  user (page_load (login "T1" worker_a empty_browser)) = Some (user_value worker_a)
  /\ isAuthenticated (page_load (login "T1" worker_a empty_browser)) = true
  /\ getItem "safesnap_token" (page_load (login "T1" worker_a empty_browser)) = Some "T1".
Proof.
  apply (login_then_restore "T1" worker_a empty_browser); discriminate.
Defined.




(** ** The upload grant *)

(** [getUploadUrl] makes one call and, when it is answered, resolves. *)
Lemma getUploadUrl_resolved (fileName fileType : string) (response_data : UploadUrlData)
    (rs : list Reply) (w : World) :
  replies w = UploadUrlReply (Resolved response_data) :: rs ->
  exists w',
    getUploadUrl fileName fileType w =
      (Resolved
         {| uploadUrl := data_uploadUrl response_data;
            fileUrl := JS.or_else (JS.or_else (data_s3Url response_data)
                                     (data_fileUrl response_data))
                         (data_downloadUrl response_data);
            expiresInSeconds := JS.times (data_expiresInMinutes response_data) 60 |},
       w')
    /\ replies w' = rs
    /\ events w' =
         (events w ++ [Network (POST_s3_upload_url (getFileType fileType)
                                  (getFileExtension fileName))])%list
    /\ uploadedImages w' = uploadedImages w
    /\ uploadedAudio w' = uploadedAudio w
    /\ isUploading w' = isUploading w
    /\ formError w' = formError w.
Proof.
  intros Hr. unfold getUploadUrl, bind, apiClient_post_upload_url, next_reply, emit.
  cbn. rewrite Hr. cbn. eexists. split; [reflexivity|]. by cbn.
Qed.

(** C6. For every answer to the grant request, the public URL that
    [getUploadUrl] resolves with is the first present and non-empty field
    among [s3Url], [fileUrl], [downloadUrl], in that order; when there is
    none, it is the [downloadUrl] field as it came. *)
Theorem getUploadUrl_fileUrl_priority (fileName fileType : string)
    (response_data : UploadUrlData) (rs : list Reply) (w : World) :
  replies w = UploadUrlReply (Resolved response_data) :: rs ->
  exists grant w',
    getUploadUrl fileName fileType w = (Resolved grant, w')
    /\ fileUrl grant =
         match first_present_non_empty
                 [data_s3Url response_data; data_fileUrl response_data;
                  data_downloadUrl response_data] with
         | Some url => Some url
         | None => data_downloadUrl response_data
         end.
Proof.
  intros Hr.
  destruct (getUploadUrl_resolved fileName fileType _ _ _ Hr) as (w' & -> & _).
  eexists _, w'. split; [reflexivity|]. cbn [fileUrl].
  destruct response_data as [u [[|c1 s1]|] [[|c2 s2]|] [[|c3 s3]|] m];
    reflexivity.
Qed.




Lemma getUploadUrl_fileUrl_priority_witness :
  exists grant w',
    getUploadUrl "photo.JPG" "image/jpeg"
      (fresh_page [UploadUrlReply (Resolved sample_grant)]) = (Resolved grant, w')
    /\ fileUrl grant = Some "F".
Proof.
  exact (getUploadUrl_fileUrl_priority "photo.JPG" "image/jpeg" sample_grant []
           (fresh_page [UploadUrlReply (Resolved sample_grant)]) eq_refl).
Defined.


(** The scenario of the specification: the body of the grant request for
    ["photo.JPG"]. *)
Example getUploadUrl_request_photo :
  events (snd (getUploadUrl "photo.JPG" "image/jpeg"
                 (fresh_page [UploadUrlReply (Resolved sample_grant)])))
  = [Network (POST_s3_upload_url IMAGE "jpg")].
Proof. reflexivity. Qed.

(** ** The existence check *)

(** C7. [fileExists] never rejects: it resolves with the [exists] field of
    the answer when the backend call succeeds, and with [false] when the
    call fails, whatever the failure. *)
Theorem fileExists_fail_safe (url : string) (w : World) :
  (exists b w', fileExists url w = (Resolved b, w'))
  /\ (forall response_data rs,
        replies w = FileExistsReply (Resolved response_data) :: rs ->
        fst (fileExists url w) = Resolved (exists_ response_data))
  /\ (forall e rs,
        replies w = FileExistsReply (Rejected e) :: rs ->
        fst (fileExists url w) = Resolved false)
  /\ (replies w = [] -> fst (fileExists url w) = Resolved false).
Proof.
  unfold fileExists, try_catch, bind, apiClient_get_file_exists, next_reply, emit, ret.
  cbn. repeat split.
  - destruct (replies w) as [|[o|[d|e]|o] rs]; cbn; eauto.
  - intros d rs ->. reflexivity.
  - intros e rs ->. reflexivity.
  - intros ->. reflexivity.
Qed.

Lemma fileExists_fail_safe_witness :
  fst (fileExists "url-a" (fresh_page [FileExistsReply (Rejected NetworkError)]))
  = Resolved false.
Proof.
  destruct (fileExists_fail_safe "url-a"
              (fresh_page [FileExistsReply (Rejected NetworkError)]))
    as (_ & _ & H & _).
  exact (H NetworkError [] eq_refl).
Defined.



(** ** Removing an uploaded URL *)

Lemma occurrences_filter_ne (url u : option string) (l : list (option string)) :
  u <> url ->
  occurrences u (filter (fun x => x <> url) l) = occurrences u l.
Proof.
  intros Hne. unfold occurrences. induction l as [|x l IH]; [done|].
  rewrite !filter_cons. destruct (decide (x <> url)) as [Hx|Hx].
  - rewrite filter_cons. destruct (decide (x = u)); cbn; by rewrite IH.
  - destruct (decide (x = u)) as [->|_]; [|done]. by destruct Hx.
Qed.

(** C8. Removing a URL from the uploaded-images list leaves a list without
    that URL, in which every other URL occurs as often as before and in the
    same relative order; the audio list, the pending replies and the
    network calls made are as they were. *)
Theorem removeFile_image_only_that_url (url : option string) (w : World) :
  let w' := snd (removeFile url image w) in
  (url ∉ uploadedImages w')
  /\ (forall u, u <> url ->
        occurrences u (uploadedImages w') = occurrences u (uploadedImages w))
  /\ (uploadedImages w' `sublist_of` uploadedImages w)
  /\ uploadedAudio w' = uploadedAudio w
  /\ replies w' = replies w
  /\ filter (fun ev => is_network ev = true) (events w')
     = filter (fun ev => is_network ev = true) (events w).
Proof.
  cbn. repeat split.
  - rewrite list_elem_of_filter. intros [H _]. by apply H.
  - intros u Hu. by apply occurrences_filter_ne.
  - apply sublist_filter.
  - rewrite filter_app. cbn. by rewrite app_nil_r.
Qed.

Lemma removeFile_image_only_that_url_witness :
  Some "b" ∉ uploadedImages
               (snd (removeFile (Some "b") image
                       {| uploadedImages := [Some "a"; Some "b"; Some "c"];
                          uploadedAudio := [Some "b"];
                          isUploading := false;
                          formError := None;
                          replies := [];
                          events := [] |})).
Proof.
  destruct (removeFile_image_only_that_url (Some "b")
              {| uploadedImages := [Some "a"; Some "b"; Some "c"];
                 uploadedAudio := [Some "b"];
                 isUploading := false;
                 formError := None;
                 replies := [];
                 events := [] |}) as (H & _).
  exact H.
Defined.

Lemma filter_ne_absent (url : option string) (l : list (option string)) :
  url ∉ l -> filter (fun x => x <> url) l = l.
Proof.
  induction l as [|x l IH]; [done|]. intros Hn. apply not_elem_of_cons in Hn as [Hx Hl].
  rewrite filter_cons_True by done. by rewrite IH.
Qed.

(** When the URL occurs once, the list loses that one element. *)
Lemma removeFile_image_once (url : option string) (before after : list (option string))
    (w : World) :
  uploadedImages w = (before ++ url :: after)%list ->
  url ∉ before ->
  url ∉ after ->
  uploadedImages (snd (removeFile url image w)) = (before ++ after)%list.
Proof.
  intros Hl Hb Ha. cbn. rewrite Hl, filter_app, filter_cons_False by (intros H; by apply H).
  by rewrite !filter_ne_absent.
Qed.

Example removeFile_middle :
  uploadedImages
    (snd (removeFile (Some "b") image
            {| uploadedImages := [Some "a"; Some "b"; Some "c"];
               uploadedAudio := [Some "b"];
               isUploading := false;
               formError := None;
               replies := [];
               events := [] |}))
  = [Some "a"; Some "c"].
Proof. reflexivity. Qed.



(** ** Logout, login and the restored session *)

Lemma browser_eq (b1 b2 : Browser) :
  localStorage b1 = localStorage b2 ->
  location_href b1 = location_href b2 ->
  user b1 = user b2 ->
  isLoading b1 = isLoading b2 ->
  b1 = b2.
Proof. destruct b1, b2. cbn. by intros -> -> -> ->. Qed.

Lemma getItem_other_after_purge (k : string) (b : Browser) :
  k <> "safesnap_token" -> k <> "safesnap_user" ->
  getItem k (purge b) = getItem k b.
Proof.
  intros Ht Hu. unfold purge, getItem, removeItem. cbn.
  by rewrite !lookup_delete_ne.
Qed.

(** X1. [logout] always ends the session: whatever the state before, the
    in-memory user is [null], both persisted entries are gone and the
    session is not authenticated; every other storage key and the location
    are as they were. *)
Theorem logout_clears_session (b : Browser) :
  user (logout b) = None
  /\ getItem "safesnap_token" (logout b) = None
  /\ getItem "safesnap_user" (logout b) = None
  /\ isAuthenticated (logout b) = false
  /\ (forall k, k <> "safesnap_token" -> k <> "safesnap_user" ->
        getItem k (logout b) = getItem k b)
  /\ location_href (logout b) = location_href b.
Proof.
  split; [reflexivity|]. split; [apply getItem_purge_token|].
  split; [apply getItem_purge_user|]. split; [reflexivity|]. split; [|reflexivity].
  intros k Ht Hu. by apply getItem_other_after_purge.
Qed.

(** X2. [logout] is idempotent: a second call changes nothing. *)
Theorem logout_idempotent (b : Browser) : logout (logout b) = logout b.
Proof.
  apply browser_eq; try reflexivity. cbn. apply map_eq. intros k.
  rewrite !lookup_delete. repeat case_decide; done.
Qed.

(** X3. After [login] the session is authenticated exactly when the token
    is not the empty string: with an empty token the user is set in memory
    and the session is still not authenticated. *)
Theorem login_authenticated_iff (token : string) (u : User) (b : Browser) :
  user (login token u b) = Some (user_value u)
  /\ (isAuthenticated (login token u b) = true <-> token <> "").
Proof.
  split; [reflexivity|]. unfold isAuthenticated, login, getItem. cbn.
  rewrite lookup_insert_ne by done. rewrite lookup_insert_eq. cbn.
  destruct token; cbn; split; done.
Qed.

(** X4. A second [login] replaces the first one entirely: the state is the
    one that the second login alone gives. *)
Theorem login_overwrites (token1 token2 : string) (u1 u2 : User) (b : Browser) :
  login token2 u2 (login token1 u1 b) = login token2 u2 b.
Proof.
  apply browser_eq; try reflexivity. cbn. apply map_eq. intros k.
  rewrite !lookup_insert. repeat case_decide; done.
Qed.

Lemma restore_not_stored (b : Browser) :
  both_stored b = false -> restore b = setIsLoading false b.
Proof. unfold both_stored, restore. by intros ->. Qed.

Lemma restore_invalid (b : Browser) :
  both_stored b = true ->
  match getItem "safesnap_user" b ≫= Json.parse with
  | Some userData => valid_user_data userData = false
  | None => True
  end ->
  restore b = setIsLoading false (purge b).
Proof.
  unfold both_stored, restore. intros ->.
  destruct (getItem "safesnap_user" b ≫= Json.parse); [|done]. by intros ->.
Qed.

Lemma restore_valid (b : Browser) (userData : Json.json) :
  both_stored b = true ->
  getItem "safesnap_user" b ≫= Json.parse = Some userData ->
  valid_user_data userData = true ->
  restore b = setIsLoading false (setUser (Some userData) b).
Proof. unfold both_stored, restore. by intros -> -> ->. Qed.

(** The three ways the restore effect can go. *)
Lemma restore_cases (b : Browser) :
  (both_stored b = false /\ restore b = setIsLoading false b)
  \/ (both_stored b = true /\ restore b = setIsLoading false (purge b))
  \/ exists userData,
       both_stored b = true
       /\ getItem "safesnap_user" b ≫= Json.parse = Some userData
       /\ valid_user_data userData = true
       /\ restore b = setIsLoading false (setUser (Some userData) b).
Proof.
  destruct (both_stored b) eqn:Hs; [|left; split; [done|by apply restore_not_stored]].
  destruct (getItem "safesnap_user" b ≫= Json.parse) as [userData|] eqn:Hp.
  - destruct (valid_user_data userData) eqn:Hv.
    + right; right. exists userData. repeat split; try done. by apply restore_valid.
    + right; left. split; [done|]. apply restore_invalid; [done|]. by rewrite Hp.
  - right; left. split; [done|]. apply restore_invalid; [done|]. by rewrite Hp.
Qed.

(** X5. The restore effect removes both session entries or leaves storage
    alone: it never removes one of the two only, never writes an entry,
    never touches another key, and never changes the location. *)
Theorem restore_purges_both_or_nothing (b : Browser) :
  (localStorage (restore b) = localStorage b
   \/ localStorage (restore b)
      = delete "safesnap_user" (delete "safesnap_token" (localStorage b)))
  /\ (forall k, k <> "safesnap_token" -> k <> "safesnap_user" ->
        getItem k (restore b) = getItem k b)
  /\ location_href (restore b) = location_href b
  /\ isLoading (restore b) = false.
Proof.
  destruct (restore_cases b) as [[_ ->]|[[_ ->]|(ud & _ & _ & _ & ->)]];
    (split; [|split; [|split]]); try reflexivity; try (by left); try (by right).
  intros k Ht Hu. change (getItem k (setIsLoading false (purge b)))
    with (getItem k (purge b)). by apply getItem_other_after_purge.
Qed.

(** X6. The restore effect is idempotent: running it again on its own
    result changes nothing. *)
Theorem restore_idempotent (b : Browser) : restore (restore b) = restore b.
Proof.
  destruct (restore_cases b) as [[Hs ->]|[[Hs ->]|(ud & Hs & Hp & Hv & ->)]].
  - by rewrite restore_not_stored.
  - rewrite restore_not_stored; [done|]. unfold both_stored.
    change (getItem ?k (setIsLoading false ?x)) with (getItem k x).
    by rewrite getItem_purge_token.
  - by rewrite (restore_valid _ ud).
Qed.

(** X7. What a fresh start restores is a session in full: when the
    in-memory user is set after a page load, the session is authenticated,
    the user has a truthy [id], [email] and [role], and it is the value
    that the stored blob parses to. *)
Theorem page_load_user_is_valid (b : Browser) (u : Json.json) :
  user (page_load b) = Some u ->
  isAuthenticated (page_load b) = true
  /\ valid_user_data u = true
  /\ getItem "safesnap_user" (page_load b) ≫= Json.parse = Some u
  /\ localStorage (page_load b) = localStorage b.
Proof.
  unfold page_load. intros Hu.
  destruct (restore_cases (mount b))
    as [[Hs H]|[[Hs H]|(ud & Hs & Hp & Hv & H)]]; rewrite H in *;
    try discriminate Hu.
  injection Hu as ->. repeat split; try done.
  unfold isAuthenticated. cbn [user setUser setIsLoading].
  unfold both_stored in Hs. apply andb_true_iff in Hs as [Ht _].
  change (getItem ?k (setIsLoading false (setUser ?v ?x))) with (getItem k x).
  rewrite Ht. unfold valid_user_data in Hv. rewrite !andb_true_iff in Hv.
  by destruct Hv as [[[[-> _] _] _] _].
Qed.

Lemma page_load_user_is_valid_witness :
  isAuthenticated (page_load logged_in_browser) = true
  /\ valid_user_data (user_value worker_a) = true
  /\ getItem "safesnap_user" (page_load logged_in_browser) ≫= Json.parse
     = Some (user_value worker_a)
  /\ localStorage (page_load logged_in_browser) = localStorage logged_in_browser.
Proof.
  apply (page_load_user_is_valid logged_in_browser (user_value worker_a)).
  vm_compute. reflexivity.
Defined.

(** X8. After [logout] a fresh start restores nothing.  [authApi.logout]
    removes the same two entries and sets no state of React: the in-memory
    user and the context value of the last render stay as they were, and
    it is a fresh start afterwards that leaves no user and a session that
    is not authenticated. *)
Theorem logout_then_page_load (s : Screen) :
  user (page_load (logout (now s))) = None
  /\ isAuthenticated (page_load (logout (now s))) = false
  /\ user (now (screen_authApi_logout s)) = user (now s)
  /\ rendered (screen_authApi_logout s) = rendered s
  /\ localStorage (now (screen_authApi_logout s)) = localStorage (logout (now s))
  /\ user (now (reload (screen_authApi_logout s))) = None
  /\ isAuthenticated (rendered (reload (screen_authApi_logout s))) = false
  /\ localStorage (now (reload (screen_authApi_logout s)))
     = localStorage (logout (now s)).
Proof.
  unfold reload, render, screen_authApi_logout. cbn [now rendered].
  rewrite (page_load_no_token (logout (now s))) by apply getItem_purge_token.
  rewrite (page_load_no_token (authApi_logout (now s))) by apply getItem_purge_token.
  repeat split; reflexivity.
Qed.

(** ** authApi and the login page *)

Lemma first_piece_split (sep : ascii) (s : string) :
  exists rest,
    s = first_piece (JS.split sep s) ++ rest
    /\ has_char sep (first_piece (JS.split sep s)) = false
    /\ (rest = "" \/ exists rest', rest = String sep rest').
Proof.
  induction s as [|c s (rest & Hs & Hn & Hr)]; [by exists ""; repeat split; left|].
  cbn [JS.split]. destruct (Ascii.eqb c sep) eqn:Hc.
  - apply Ascii.eqb_eq in Hc as ->. exists (String sep s). repeat split. eauto.
  - destruct (JS.split sep s) as [|p ps] eqn:Hsp.
    + cbn [first_piece] in *. exists rest. rewrite append_cons, append_nil_l in *.
      repeat split; [by rewrite Hs at 1|by cbn; rewrite Hc|done].
    + cbn [first_piece] in *. exists rest. rewrite append_cons.
      repeat split; [by rewrite Hs at 1|by cbn; rewrite Hc, Hn|done].
Qed.

(** X9. What [authApi.login] makes of the backend's answer: the id is
    always 1, the email is the one typed in, the role and the token are
    the backend's, and the name is the part of the email before its first
    ['@'] (the whole email when it has none).  A failed call is passed
    on. *)
Theorem authApi_login_user (data : LoginRequest) (r : BackendAuthResponse) :
  exists res rest,
    authApi_login data (Resolved r) = Resolved res
    /\ auth_token res = backend_token r
    /\ id (auth_user res) = 1
    /\ email (auth_user res) = login_email data
    /\ role (auth_user res) = backend_role r
    /\ login_email data = name (auth_user res) ++ rest
    /\ has_char "@" (name (auth_user res)) = false
    /\ (rest = "" \/ exists rest', rest = String "@" rest')
    /\ forall e, authApi_login data (Rejected e) = Rejected e.
Proof.
  destruct (first_piece_split "@" (login_email data)) as (rest & Hs & Hn & Hr).
  eexists _, rest. split; [reflexivity|]. cbn. repeat split; try done.
Qed.

Example authApi_login_scenario :
  authApi_login {| login_email := "a@x.com"; login_password := "secret1" |}
    (Resolved {| backend_token := "T1"; backend_role := WORKER |})
  = Resolved {| auth_token := "T1"; auth_user := worker_a |}.
Proof. reflexivity. Qed.

(** A fresh start over a storage that holds a non-empty token and the blob
    of a user with a non-zero id and a non-empty email. *)
Lemma page_load_stored_user (token : string) (u : User) (b : Browser) :
  getItem "safesnap_token" b = Some token ->
  getItem "safesnap_user" b = Some (stringify_user u) ->
  token <> "" -> id u <> 0 -> email u <> "" ->
  page_load b = setIsLoading false (setUser (Some (user_value u)) (mount b)).
Proof.
  intros Ht Hu Htoken Hid Hemail. unfold page_load.
  apply restore_valid.
  - unfold both_stored. change (getItem ?k (mount b)) with (getItem k b).
    rewrite Ht, Hu, (truthy_str_Some token Htoken).
    by rewrite stringify_user_text.
  - change (getItem ?k (mount b)) with (getItem k b). rewrite Hu.
    apply parse_stringify_user.
  - by apply valid_user_value.
Qed.

(** X10. A session made by the login page survives a reload: when the
    backend's token and the typed email are not empty, [authApi.login]
    followed by [onSuccess] leaves a state from which a fresh start
    restores the same user, authenticated, and the location is the home of
    the user's role, whose route then shows the dashboard. *)
Theorem login_page_session_survives_reload (data : LoginRequest)
    (r : BackendAuthResponse) (res : AuthResponse) (b : Browser) :
  backend_token r <> "" ->
  login_email data <> "" ->
  authApi_login data (Resolved r) = Resolved res ->
  let b' := onSuccess res b in
  user b' = Some (user_value (auth_user res))
  /\ user (page_load b') = user b'
  /\ isAuthenticated (page_load b') = true
  /\ location_href (page_load b') = home b'
  /\ route_element (route_of (location_href b')) (page_load b')
     = Render (match backend_role r with
               | WORKER => WorkerDashboard
               | MANAGER => ManagerDashboard
               end).
Proof.
  intros Htoken Hemail [= <-]. cbn zeta.
  set (u := {| id := 1; name := _; email := _; role := _ |}).
  set (b' := onSuccess _ b).
  assert (page_load b' = setIsLoading false (setUser (Some (user_value u)) (mount b')))
    as Hp.
  { apply (page_load_stored_user (backend_token r)); try done.
    - unfold b', onSuccess, navigate, getItem. cbn.
      rewrite lookup_insert_ne by done. apply lookup_insert_eq.
    - unfold b', onSuccess, navigate, getItem. cbn. apply lookup_insert_eq. }
  assert (getItem "safesnap_token" b' = Some (backend_token r)) as Ht.
  { unfold b', onSuccess, navigate, getItem. cbn.
    rewrite lookup_insert_ne by done. apply lookup_insert_eq. }
  assert (isAuthenticated (page_load b') = true) as Ha.
  { rewrite Hp. unfold isAuthenticated.
    change (getItem ?k (setIsLoading false (setUser ?v (mount ?x))))
      with (getItem k x).
    rewrite Ht, (truthy_str_Some _ Htoken). reflexivity. }
  split; [reflexivity|]. split; [by rewrite Hp|]. split; [exact Ha|].
  split.
  - rewrite Hp. unfold b', onSuccess, navigate, home, user_role. cbn.
    by destruct (backend_role r).
  - unfold b' at 1. unfold onSuccess, navigate. cbn [location_href set_location_href].
    destruct (backend_role r) eqn:Hr; cbn [role u route_of String.eqb Ascii.eqb Bool.eqb];
      unfold route_element, ProtectedRoute; rewrite Ha; rewrite Hp; cbn;
      reflexivity.
Qed.

Lemma login_page_session_survives_reload_witness :
  let b' := onSuccess {| auth_token := "T1"; auth_user := worker_a |} empty_browser in
  user b' = Some (user_value worker_a)
  /\ user (page_load b') = user b'
  /\ isAuthenticated (page_load b') = true
  /\ location_href (page_load b') = home b'
  /\ route_element (route_of (location_href b')) (page_load b')
     = Render WorkerDashboard.
Proof.
  apply (login_page_session_survives_reload
           {| login_email := "a@x.com"; login_password := "secret1" |}
           {| backend_token := "T1"; backend_role := WORKER |}
           {| auth_token := "T1"; auth_user := worker_a |} empty_browser);
    [discriminate|discriminate|reflexivity].
Defined.

(** ** The route guard *)

Lemma isAuthenticated_has_user (b : Browser) :
  isAuthenticated b = true -> has_user b = true.
Proof. unfold isAuthenticated, has_user. by intros [-> _]%andb_true_iff. Qed.

Lemma same_units_eq (s t : list N) : JS.same_units s t = true <-> s = t.
Proof.
  revert t. induction s as [|a s IH]; intros [|b t]; cbn [JS.same_units];
    try (split; done).
  rewrite andb_true_iff, N.eqb_eq, IH. split; [by intros [-> ->]|by intros [= -> ->]].
Qed.

Lemma is_string_true (value : option Json.json) (s : string) :
  is_string value s = true <-> value = Some (Json.JStr s).
Proof.
  unfold is_string, Json.JStr. destruct value as [[]|]; try (split; done).
  rewrite same_units_eq. split; [by intros ->|by intros [= ->]].
Qed.

(** X11. [ProtectedRoute] renders its children exactly when the session is
    loaded and authenticated and, if a role is required, the role of the
    user is that very string; it never renders any other page. *)
Theorem ProtectedRoute_renders_iff (children page : Page) (requiredRole : option Role)
    (b : Browser) :
  ProtectedRoute children requiredRole b = Render page
  <-> page = children
      /\ isLoading b = false
      /\ isAuthenticated b = true
      /\ forall required, requiredRole = Some required ->
           user_role b = Some (Json.JStr (role_string required)).
Proof.
  unfold ProtectedRoute. destruct (isLoading b); [split; [done|by intros (_ & ? & _)]|].
  destruct (isAuthenticated b) eqn:Ha; cbn [negb orb].
  2: { split; [done|by intros (_ & _ & ? & _)]. }
  rewrite (isAuthenticated_has_user b Ha). cbn [negb].
  destruct requiredRole as [required|].
  - destruct (is_string (user_role b) (role_string required)) eqn:Hr; cbn [negb].
    + apply is_string_true in Hr. split.
      * intros [= <-]. repeat split. by intros ? [= <-].
      * by intros (-> & _).
    + split; [done|]. intros (_ & _ & _ & H). specialize (H required eq_refl).
      apply is_string_true in H. congruence.
  - split; [by intros [= <-]|by intros (-> & _)].
Qed.

Lemma route_of_home (b : Browser) :
  route_of (home b) = if is_string (user_role b) "MANAGER" then route_manager
                      else route_worker.
Proof. unfold home. by destruct (is_string _ _). Qed.

Ltac route_step Hl Ha Hu Hm Hw :=
  cbn [settle route_element]; unfold ProtectedRoute, home; cbn [role_string];
  rewrite ?Hl, ?Ha, ?Hu, ?Hm, ?Hw;
  cbn [negb orb andb route_of String.eqb Ascii.eqb Bool.eqb].

(** X12. Redirects end.  When the session is loaded and either not
    authenticated or authenticated with the role WORKER or MANAGER, every
    route leads to a page within two redirects: the login page exactly for
    a session that is not authenticated. *)
Theorem routes_settle (b : Browser) (r : RoutePath) :
  isLoading b = false ->
  isAuthenticated b = false \/ known_role b = true ->
  exists page,
    settle 2 r b = Some page
    /\ (page = LoginPage <-> isAuthenticated b = false).
Proof.
  intros Hl Hk. destruct (isAuthenticated b) eqn:Ha.
  - destruct Hk as [?|Hk]; [done|]. unfold known_role in Hk.
    pose proof (isAuthenticated_has_user b Ha) as Hu.
    destruct (is_string (user_role b) "MANAGER") eqn:Hm.
    + assert (is_string (user_role b) "WORKER" = false) as Hw.
      { apply is_string_true in Hm. by rewrite Hm. }
      destruct r; do 3 route_step Hl Ha Hu Hm Hw;
        (eexists; split; [reflexivity|]); split; done.
    + rewrite orb_false_r in Hk. rename Hk into Hw.
      destruct r; do 3 route_step Hl Ha Hu Hm Hw;
        (eexists; split; [reflexivity|]); split; done.
  - assert (has_user b && true = has_user b) as Hu by apply andb_true_r.
    destruct r; do 3 route_step Hl Ha Hu Hl Hl;
      (eexists; split; [reflexivity|]); split; done.
Qed.

Lemma routes_settle_witness :
  exists page,
    settle 2 route_manager (page_load logged_in_browser) = Some page
    /\ (page = LoginPage <-> isAuthenticated (page_load logged_in_browser) = false).
Proof.
  apply (routes_settle (page_load logged_in_browser) route_manager).
  - reflexivity.
  - right. vm_compute. reflexivity.
Defined.

(** X13. A stored session whose role is neither WORKER nor MANAGER is
    accepted by the restore effect and can then see no page at all: once
    loaded and authenticated, every route redirects, to [/worker] in the
    end, whose guard redirects to [/worker] again. *)
Theorem unknown_role_never_settles (b : Browser) (r : RoutePath) (fuel : nat) :
  isLoading b = false ->
  isAuthenticated b = true ->
  known_role b = false ->
  settle fuel r b = None
  /\ route_element route_worker b = Navigate "/worker".
Proof.
  intros Hl Ha Hk. unfold known_role in Hk. apply orb_false_iff in Hk as [Hw Hm].
  pose proof (isAuthenticated_has_user b Ha) as Hu.
  split; [|by route_step Hl Ha Hu Hm Hw].
  revert r. induction fuel as [|fuel IH]; intros r.
  - destruct r; by route_step Hl Ha Hu Hm Hw.
  - assert (settle fuel route_worker b = None) as Hworker by apply IH.
    assert (settle fuel route_root b = None) as Hroot by apply IH.
    destruct r; cbn [settle route_element]; unfold ProtectedRoute, home;
      cbn [role_string]; rewrite ?Hl, ?Ha, ?Hu, ?Hm, ?Hw;
      cbn [negb orb andb route_of String.eqb Ascii.eqb Bool.eqb]; done.
Qed.

Lemma unknown_role_never_settles_witness :
  user (page_load admin_browser) <> None
  /\ settle 10 route_login (page_load admin_browser) = None
  /\ route_element route_worker (page_load admin_browser) = Navigate "/worker".
Proof.
  split; [vm_compute; discriminate|].
  apply (unknown_role_never_settles (page_load admin_browser) route_login 10);
    vm_compute; reflexivity.
Defined.

(** ** The interceptors *)

(** X14. An error that is not a 401 changes nothing in the browser: the
    interceptor leaves storage, the location and the in-memory session as
    they were, whatever it throws. *)
Theorem response_other_keeps_session (error : AxiosError) (b : Browser) :
  status_is 401 error = false ->
  snd (response_rejected error b) = b.
Proof.
  intros H. unfold response_rejected. rewrite H.
  destruct (status_is 429 error); by destruct (response error ≫= data).
Qed.

Lemma response_other_keeps_session_witness :
  snd (response_rejected server_error logged_in_browser) = logged_in_browser.
Proof. apply (response_other_keeps_session server_error). reflexivity. Defined.

(** X15. What the interceptor throws for an error response with a body
    that is not a 429: an error whose message is the server's when that is
    a non-empty string and ["An error occurred"] otherwise, so never the
    empty message.  Without a body the original error is thrown again. *)
Theorem response_error_message (error : AxiosError) (b : Browser) :
  status_is 429 error = false ->
  match response error ≫= data with
  | Some body =>
      exists msg,
        fst (response_rejected error b) = ApiFailure msg
        /\ msg <> ""
        /\ (JS.truthy_str (message body) = true -> message body = Some msg)
        /\ (JS.truthy_str (message body) = false -> msg = "An error occurred")
  | None => fst (response_rejected error b) = AxiosFailure error
  end.
Proof.
  intros H. unfold response_rejected. rewrite H.
  destruct (response error ≫= data) as [body|]; [|reflexivity].
  unfold JS.or_else. destruct (message body) as [[|c m]|]; cbn;
    eexists; (split; [reflexivity|]); repeat split; done.
Qed.

Lemma response_error_message_witness :
  exists msg,
    fst (response_rejected server_error logged_in_browser) = ApiFailure msg
    /\ msg <> ""
    /\ (JS.truthy_str None = true -> None = Some msg)
    /\ (JS.truthy_str None = false -> msg = "An error occurred").
Proof.
  exact (response_error_message server_error logged_in_browser eq_refl).
Defined.

(** X16. After [login] with a non-empty token every request carries
    [Bearer] and that token, whatever header it had, and goes where it was
    going; after [logout], and after a 401, a request passes as it is. *)
Theorem request_carries_token (config : OutgoingRequest) (token : string) (u : User)
    (error : AxiosError) (b : Browser) :
  token <> "" ->
  status_is 401 error = true ->
  Authorization (request_fulfilled config (login token u b)) = Some ("Bearer " ++ token)
  /\ out_method (request_fulfilled config (login token u b)) = out_method config
  /\ out_url (request_fulfilled config (login token u b)) = out_url config
  /\ request_fulfilled config (logout (login token u b)) = config
  /\ request_fulfilled config (snd (response_rejected error (login token u b))) = config.
Proof.
  intros Htoken He.
  assert (getItem "safesnap_token" (login token u b) = Some token) as Ht.
  { unfold getItem. cbn. rewrite lookup_insert_ne by done. apply lookup_insert_eq. }
  assert (forall b0, getItem "safesnap_token" b0 = None ->
            request_fulfilled config b0 = config) as Hnone.
  { intros b0 H0. unfold request_fulfilled. by rewrite H0. }
  split; [|split; [|split; [|split]]].
  - unfold request_fulfilled. by rewrite Ht, (truthy_str_Some token Htoken).
  - unfold request_fulfilled. by rewrite Ht, (truthy_str_Some token Htoken).
  - unfold request_fulfilled. by rewrite Ht, (truthy_str_Some token Htoken).
  - apply Hnone. apply getItem_purge_token.
  - apply Hnone.
    assert (snd (response_rejected error (login token u b))
            = set_location_href "/login" (purge (login token u b))) as ->.
    { unfold response_rejected. rewrite He.
      destruct (status_is 429 error); by destruct (response error ≫= data). }
    apply getItem_purge_token.
Qed.

Lemma request_carries_token_witness :
  Authorization (request_fulfilled plain_request (login "T1" worker_a empty_browser))
  = Some "Bearer T1"
  /\ request_fulfilled plain_request (logout (login "T1" worker_a empty_browser))
     = plain_request.
Proof.
  destruct (request_carries_token plain_request "T1" worker_a unauthorized
              empty_browser) as (H1 & _ & _ & H2 & _);
    [discriminate|reflexivity|]. split; [exact H1|exact H2].
Defined.

(** X17. A token stored without a user blob outlives the restore effect:
    after a fresh start the session is not authenticated, and every
    request still carries that token. *)
Theorem stale_token_still_sent (config : OutgoingRequest) (token : string) (b : Browser) :
  getItem "safesnap_token" b = Some token ->
  token <> "" ->
  getItem "safesnap_user" b = None ->
  user (page_load b) = None
  /\ isAuthenticated (page_load b) = false
  /\ Authorization (request_fulfilled config (page_load b)) = Some ("Bearer " ++ token).
Proof.
  intros Ht Htoken Hu.
  assert (page_load b = setIsLoading false (mount b)) as ->.
  { unfold page_load. apply restore_not_stored. unfold both_stored.
    change (getItem ?k (mount b)) with (getItem k b). rewrite Hu. apply andb_false_r. }
  split; [reflexivity|]. split; [reflexivity|].
  unfold request_fulfilled.
  change (getItem ?k (setIsLoading false (mount b))) with (getItem k b).
  by rewrite Ht, (truthy_str_Some token Htoken).
Qed.

Lemma stale_token_still_sent_witness :
  user (page_load stale_token_only) = None
  /\ isAuthenticated (page_load stale_token_only) = false
  /\ Authorization (request_fulfilled plain_request (page_load stale_token_only))
     = Some "Bearer T0".
Proof.
  apply (stale_token_still_sent plain_request "T0" stale_token_only);
    [vm_compute; reflexivity|discriminate|vm_compute; reflexivity].
Defined.

(** ** The extension, once more *)

Lemma lower_char_idempotent (c : ascii) : JS.lower_char (JS.lower_char c) = JS.lower_char c.
Proof. destruct c as [[] [] [] [] [] [] [] []]; reflexivity. Qed.

Lemma lower_char_is_dot (c : ascii) : Ascii.eqb (JS.lower_char c) "." = Ascii.eqb c ".".
Proof. destruct c as [[] [] [] [] [] [] [] []]; reflexivity. Qed.

Lemma toLowerCase_idempotent (s : string) :
  JS.toLowerCase (JS.toLowerCase s) = JS.toLowerCase s.
Proof.
  induction s as [|c s IH]; [done|]. cbn. by rewrite lower_char_idempotent, IH.
Qed.

Lemma has_dot_toLowerCase (s : string) :
  has_char "." (JS.toLowerCase s) = has_char "." s.
Proof.
  induction s as [|c s IH]; [done|]. cbn. by rewrite lower_char_is_dot, IH.
Qed.

Lemma after_final_dot_has_no_dot (s : string) :
  match after_final_dot s with
  | Some ext => has_char "." ext = false /\ has_char "." s = true
  | None => has_char "." s = false
  end.
Proof.
  induction s as [|c s IH]; [done|]. cbn [after_final_dot has_char].
  destruct (after_final_dot s) as [ext|].
  - destruct IH as [-> ->]. by rewrite orb_true_r.
  - rewrite IH, orb_false_r. by destruct (Ascii.eqb c ".").
Qed.

(** X18. The extension that [getFileExtension] returns never holds a ['.']
    and is in lower case already: lower-casing it again gives it back. *)
Theorem getFileExtension_no_dot_lower_case (fileName : string) :
  has_char "." (getFileExtension fileName) = false
  /\ JS.toLowerCase (getFileExtension fileName) = getFileExtension fileName.
Proof.
  rewrite getFileExtension_eq. split; [|apply toLowerCase_idempotent].
  rewrite has_dot_toLowerCase.
  pose proof (after_final_dot_has_no_dot fileName) as H.
  destruct (after_final_dot fileName); [by destruct H|done].
Qed.

(** ** filterValidImageUrls *)

Lemma valid_image_url_http (url : string) :
  valid_image_url url = true ->
  (JS.startsWith (trim url) "http://" || JS.startsWith (trim url) "https://") = true
  /\ existsb (fun debug => includes (JS.toLowerCase (trim url)) debug) debugTexts = false.
Proof.
  unfold valid_image_url. destruct (String.length (trim url) =? 0)%nat; [done|].
  destruct (existsb _ debugTexts); [done|].
  by destruct (JS.startsWith (trim url) "http://" || JS.startsWith (trim url) "https://").
Qed.

Lemma filter_filter_same {A} (f : A -> bool) (l : list A) :
  List.filter f (List.filter f l) = List.filter f l.
Proof.
  induction l as [|x l IH]; [done|]. cbn. destruct (f x) eqn:Hx; [|done].
  cbn. by rewrite Hx, IH.
Qed.

Lemma filter_sublist {A} (f : A -> bool) (l : list A) :
  List.filter f l `sublist_of` l.
Proof.
  induction l as [|x l IH]; [done|]. cbn.
  destruct (f x); [by apply sublist_skip|by apply sublist_cons].
Qed.

(** X19. [filterValidImageUrls] only ever drops: what it returns is the
    given list without some of its elements, in the same order, and every
    URL it keeps starts, once trimmed, with [http://] or [https://].
    Filtering its result again changes nothing, and [undefined] gives the
    empty list. *)
Theorem filterValidImageUrls_keeps_http (urls : list string) :
  (filterValidImageUrls (Some urls) `sublist_of` urls)
  /\ (forall url, url ∈ filterValidImageUrls (Some urls) ->
        exists rest, trim url = "http://" ++ rest \/ trim url = "https://" ++ rest)
  /\ filterValidImageUrls (Some (filterValidImageUrls (Some urls)))
     = filterValidImageUrls (Some urls)
  /\ filterValidImageUrls None = [].
Proof.
  cbn [filterValidImageUrls]. split; [apply filter_sublist|].
  split; [|split; [apply filter_filter_same|reflexivity]].
  intros url Hin. apply list_elem_of_In, filter_In in Hin as [_ Hv].
  apply valid_image_url_http in Hv as [Hv _]. unfold JS.startsWith in Hv.
  apply orb_true_iff in Hv as [H|H]; apply prefix_app in H as [rest H];
    exists rest; [by left|by right].
Qed.

(** X20. A URL that holds one of the words of [debugTexts], in any case, is
    dropped by [filterValidImageUrls] even when it is an [https://] URL. *)
Theorem filterValidImageUrls_drops_debug_words (urls : list string) (url debug : string) :
  debug ∈ debugTexts ->
  includes (JS.toLowerCase (trim url)) debug = true ->
  url ∉ filterValidImageUrls (Some urls).
Proof.
  intros Hd Hi Hin. apply list_elem_of_In, filter_In in Hin as [_ Hv].
  apply valid_image_url_http in Hv as [_ Hv].
  assert (existsb (fun debug => includes (JS.toLowerCase (trim url)) debug) debugTexts
          = true) as Ht; [|congruence].
  apply existsb_exists. exists debug. split; [by apply list_elem_of_In|done].
Qed.

Lemma filterValidImageUrls_drops_debug_words_witness :
  "https://safesnap.s3.amazonaws.com/incidents/images/Uploaded_1.jpg"
  ∉ filterValidImageUrls
      (Some ["https://safesnap.s3.amazonaws.com/incidents/images/Uploaded_1.jpg";
             "https://safesnap.s3.amazonaws.com/incidents/images/photo_1.jpg"]).
Proof.
  apply (filterValidImageUrls_drops_debug_words _ _ "uploaded").
  - apply list_elem_of_In. vm_compute. tauto.
  - vm_compute. reflexivity.
Defined.

Example filterValidImageUrls_sample :
  filterValidImageUrls
    (Some ["  https://a/b.jpg "; "uploading..."; "/local/path.jpg";
           "https://a/error.jpg"; ""; "http://c/d.png"])
  = ["  https://a/b.jpg "; "http://c/d.png"].
Proof. vm_compute. reflexivity. Qed.

(** X29. Between a 401 and the page load that it starts, every route
    shows what it showed, a protected page included, although a request
    sent now carries no token.  After the page load every route ends at
    the login page, and every guard redirects to [/login]. *)
Theorem response_401_routes_until_reload (error : AxiosError)
    (config : OutgoingRequest) (r : RoutePath) (s : Screen) :
  status_is 401 error = true ->
  let s' := snd (screen_response_rejected error s) in
  route_element r (rendered s') = route_element r (rendered s)
  /\ request_fulfilled config (now s') = config
  /\ settle 2 r (rendered (reload s')) = Some LoginPage
  /\ forall children requiredRole,
       ProtectedRoute children requiredRole (rendered (reload s'))
       = Navigate "/login".
Proof.
  intros He. cbn zeta. unfold screen_response_rejected, reload, render.
  cbn [snd now rendered]. rewrite (response_rejected_401 error (now s) He).
  set (b' := set_location_href "/login" (purge (now s))).
  assert (getItem "safesnap_token" b' = None) as Ht by apply getItem_purge_token.
  rewrite (page_load_no_token b' Ht).
  split; [reflexivity|]. split.
  - unfold request_fulfilled. by rewrite Ht.
  - split; [by destruct r|reflexivity].
Qed.

Lemma response_401_routes_until_reload_witness :
  let s' := snd (screen_response_rejected unauthorized (render logged_in_browser)) in
  route_element route_worker (rendered s') = Render WorkerDashboard
  /\ request_fulfilled plain_request (now s') = plain_request
  /\ settle 2 route_worker (rendered (reload s')) = Some LoginPage.
Proof.
  destruct (response_401_routes_until_reload unauthorized plain_request route_worker
              (render logged_in_browser)) as (H1 & H2 & H3 & _); [reflexivity|].
  split; [|split; [exact H2|exact H3]].
  cbn zeta in H1. rewrite H1. vm_compute. reflexivity.
Defined.

(** ** The upload batch *)

Local Open Scope list_scope.

Lemma upload_one_done (type : UploadKind) (t : Task) (rest : list Reply) (w : World) :
  replies w = task_replies t ++ rest ->
  transfer_ok t = true ->
  upload_one type (task_file t) w = (Resolved tt, task_done type w t).
Proof.
  unfold transfer_ok, task_replies. intros Hr Hok.
  destruct (task_put t) as [r|e] eqn:Hput; [|done].
  unfold upload_one, getUploadUrl, uploadFile, bind, apiClient_post_upload_url,
    fetch_put, next_reply, emit, ret, task_done, task_calls, task_url, uploaded,
    setUploadedImages, setUploadedAudio.
  cbn. rewrite Hr. cbn. rewrite Hok. cbn.
  destruct type; cbn; unfold emit; cbn; do 2 f_equal; by rewrite <- !app_assoc.
Qed.

Lemma upload_one_failed (type : UploadKind) (t : Task) (rest : list Reply) (w : World) :
  replies w = task_replies t ++ rest ->
  transfer_ok t = false ->
  exists e, upload_one type (task_file t) w = (Rejected e, task_failed w t).
Proof.
  unfold transfer_ok, task_replies. intros Hr Hok.
  unfold upload_one, getUploadUrl, uploadFile, bind, apiClient_post_upload_url,
    fetch_put, next_reply, emit, ret, throw, task_failed, task_calls.
  cbn. rewrite Hr. cbn.
  destruct (task_put t) as [r|e] eqn:Hput; cbn.
  - rewrite Hok. cbn. eexists. do 2 f_equal. by rewrite <- !app_assoc.
  - eexists. do 2 f_equal. by rewrite <- !app_assoc.
Qed.

Lemma upload_loop_done (type : UploadKind) (ts : list Task) (files : list File)
    (rest : list Reply) (w : World) :
  replies w = flat_map task_replies ts ++ rest ->
  forallb transfer_ok ts = true ->
  upload_loop type (List.map task_file ts ++ files) w
  = upload_loop type files (tasks_done type w ts).
Proof.
  revert w. induction ts as [|t ts IH]; intros w Hr Hok; [done|].
  cbn in Hok. apply andb_true_iff in Hok as [Ht Hts].
  cbn [List.map app upload_loop tasks_done fold_left]. unfold bind at 1.
  cbn [flat_map] in Hr. rewrite <- app_assoc in Hr.
  rewrite (upload_one_done type t _ w Hr Ht).
  apply IH; [|done]. cbn. rewrite Hr. reflexivity.
Qed.

Lemma tasks_done_snoc (type : UploadKind) (w : World) (ts : list Task) (t : Task) :
  tasks_done type w (ts ++ [t]) = task_done type (tasks_done type w ts) t.
Proof. unfold tasks_done. by rewrite fold_left_app. Qed.

(** What the tasks that went through leave behind. *)
Lemma tasks_done_spec (type : UploadKind) (ts : list Task) (rest : list Reply)
    (w : World) :
  replies w = flat_map task_replies ts ++ rest ->
  let w' := tasks_done type w ts in
  uploaded type w' = uploaded type w ++ List.map task_url ts
  /\ isUploading w' = isUploading w
  /\ formError w' = formError w
  /\ replies w' = rest
  /\ exists evs,
       events w' = events w ++ evs
       /\ filter (fun ev => is_network ev = true) evs = flat_map task_calls ts
       /\ filter (fun ev => is_state_event ev = true) evs = [].
Proof.
  revert rest. induction ts as [|t ts IH] using rev_ind; intros rest Hr.
  - cbn. rewrite app_nil_r. repeat split; try done.
    exists []. by rewrite app_nil_r.
  - rewrite flat_map_app in Hr. cbn [flat_map] in Hr.
    rewrite app_nil_r, <- app_assoc in Hr.
    destruct (IH _ Hr) as (Hup & Hflag & Herr & Hrep & evs & Hev & Hnet & Hst).
    cbn zeta. rewrite tasks_done_snoc. repeat split.
    + destruct type; cbn in *; rewrite Hup, List.map_app, app_assoc; done.
    + done.
    + done.
    + cbn [replies task_done]. by rewrite Hrep.
    + exists (evs ++ task_calls t
                ++ [SetUploaded type (uploaded type (tasks_done type w ts) ++ [task_url t])]).
      split; [|split].
      * cbn [events task_done]. rewrite Hev. by rewrite <- !app_assoc.
      * rewrite !filter_app, Hnet, flat_map_app. cbn [flat_map].
        rewrite app_nil_r. f_equal. by destruct type.
      * rewrite !filter_app, Hst. by destruct type.
Qed.



(** A batch in which every task goes through. *)
Lemma handleFileUpload_all_done (type : UploadKind) (t : Task) (ts : list Task)
    (rest : list Reply) (w : World) :
  forallb transfer_ok (t :: ts) = true ->
  replies w = flat_map task_replies (t :: ts) ++ rest ->
  exists w',
    handleFileUpload (Some (List.map task_file (t :: ts))) type w = (Resolved tt, w')
    /\ uploaded type w' = uploaded type w ++ List.map task_url (t :: ts)
    /\ isUploading w' = false
    /\ formError w' = formError w
    /\ replies w' = rest.
Proof.
  intros Hok Hr. set (tasks := t :: ts) in *.
  unfold handleFileUpload. change (List.map task_file tasks)
    with (task_file t :: List.map task_file ts).
  change (task_file t :: List.map task_file ts) with (List.map task_file tasks).
  destruct (List.map task_file tasks) as [|f fs] eqn:E; [done|]. rewrite <- E.
  unfold bind at 1. unfold setIsUploading at 1.
  set (w1 := emit (SetIsUploading true) _).
  assert (replies w1 = flat_map task_replies tasks ++ rest) as Hr1 by exact Hr.
  unfold try_finally, try_catch.
  rewrite <- (app_nil_r (List.map task_file tasks)).
  rewrite (upload_loop_done type tasks [] rest w1 Hr1 Hok). cbn [upload_loop ret].
  destruct (tasks_done_spec type tasks rest w1 Hr1) as (Hup & Hfl & Her & Hrep & _).
  unfold setIsUploading. eexists. split; [reflexivity|].
  repeat split; done.
Qed.

(** C2 (amended). In a batch where the tasks before some task go through
    and that task fails at the transfer step, the URLs of the tasks before
    it are appended to the result list in order, and the loop stops there:
    no call is made for the files after it and no URL of theirs is added.
    The uploading flag is set once at the start and becomes false at the
    very end, after the last call that was made and after the one error
    message. *)
Theorem handleFileUpload_stops_at_failure (type : UploadKind) (finished : list Task)
    (failing : Task) (later : list File) (rest : list Reply) (w : World) :
  forallb transfer_ok finished = true ->
  transfer_ok failing = false ->
  replies w = flat_map task_replies finished ++ task_replies failing ++ rest ->
  exists w',
    handleFileUpload
      (Some (List.map task_file finished ++ task_file failing :: later)) type w
    = (Resolved tt, w')
    /\ uploaded type w' = uploaded type w ++ List.map task_url finished
    /\ isUploading w' = false
    /\ formError w' = Some upload_error
    /\ replies w' = rest
    /\ exists evs,
         events w' = events w ++ [SetIsUploading true] ++ evs
                       ++ [SetFormError upload_error; SetIsUploading false]
         /\ filter (fun ev => is_network ev = true) evs
            = flat_map task_calls (finished ++ [failing])
         /\ filter (fun ev => is_state_event ev = true) evs = [].
Proof.
  intros Hok Hfail Hr. unfold handleFileUpload.
  destruct (List.map task_file finished ++ task_file failing :: later)
    as [|f fs] eqn:E; [by destruct finished|]. rewrite <- E.
  unfold bind at 1. unfold setIsUploading at 1.
  set (w1 := emit (SetIsUploading true) _).
  assert (replies w1 = flat_map task_replies finished ++ task_replies failing ++ rest)
    as Hr1 by exact Hr.
  unfold try_finally, try_catch.
  rewrite (upload_loop_done type finished _ _ w1 Hr1 Hok).
  destruct (tasks_done_spec type finished _ w1 Hr1)
    as (Hup & Hfl & Her & Hrep & evs & Hev & Hnet & Hst).
  cbn [upload_loop]. unfold bind at 1.
  destruct (upload_one_failed type failing rest _ Hrep Hfail) as [e ->].
  unfold setFormError, setIsUploading. eexists. split; [reflexivity|].
  split; [|split; [done|split; [done|split]]].
  - destruct type; exact Hup.
  - cbn. by rewrite Hrep.
  - exists (evs ++ task_calls failing). split; [|split].
    + cbn. rewrite Hev. cbn. by rewrite <- !app_assoc.
    + rewrite filter_app, Hnet, flat_map_app. by f_equal.
    + by rewrite filter_app, Hst.
Qed.

(** C2, as stated, fails: with the second of three files failing at the
    transfer step, the third file is never sent.  Its URL is not in the
    result list, the answers held ready for it are still pending, and the
    uploading flag is false all the same. *)
Lemma third_file_never_uploaded :
  let w' := snd (handleFileUpload
                   (Some [photo "a.jpg"; photo "b.jpg"; photo "c.jpg"]) image
                   batch_of_three) in
  uploadedImages w' = [Some "url-a"]
  /\ task_url task2 = Some "url-c"
  /\ (Some "url-c" ∉ uploadedImages w')
  /\ replies w' = task_replies task2
  /\ isUploading w' = false
  /\ length (filter (fun ev => is_network ev = true) (events w')) = 4%nat.
Proof.
  vm_compute. repeat split; try reflexivity.
  intros H. apply list_elem_of_In in H. destruct H as [H|[]]. discriminate H.
Qed.

Lemma handleFileUpload_stops_at_failure_witness :
  exists w',
    handleFileUpload (Some [photo "a.jpg"; photo "b.jpg"; photo "c.jpg"]) image
      batch_of_three
    = (Resolved tt, w')
    /\ uploaded image w' = [Some "url-a"]
    /\ isUploading w' = false
    /\ formError w' = Some upload_error
    /\ replies w' = task_replies task2
    /\ exists evs,
         events w' = [SetIsUploading true] ++ evs
                       ++ [SetFormError upload_error; SetIsUploading false]
         /\ filter (fun ev => is_network ev = true) evs
            = flat_map task_calls [task0; task1]
         /\ filter (fun ev => is_state_event ev = true) evs = [].
Proof.
  exact (handleFileUpload_stops_at_failure image [task0] task1 [photo "c.jpg"]
           (task_replies task2) batch_of_three eq_refl eq_refl eq_refl).
Defined.

(** ** The upload batch, whatever the network answers *)

Lemma network_calls_app (evs1 evs2 : list Event) :
  network_calls (evs1 ++ evs2) = (network_calls evs1 + network_calls evs2)%nat.
Proof. unfold network_calls. by rewrite filter_app, length_app. Qed.

Lemma state_events_app (evs1 evs2 : list Event) :
  state_events (evs1 ++ evs2) = state_events evs1 ++ state_events evs2.
Proof. unfold state_events. by rewrite filter_app. Qed.

(** One turn of the loop: it adds one URL when it goes through and none
    when it fails, and leaves the rest of the page alone. *)
Lemma upload_one_frame (type : UploadKind) (file : File) (w : World) :
  exists added evs,
    uploaded type (snd (upload_one type file w)) = uploaded type w ++ added
    /\ uploaded (other_kind type) (snd (upload_one type file w))
       = uploaded (other_kind type) w
    /\ isUploading (snd (upload_one type file w)) = isUploading w
    /\ formError (snd (upload_one type file w)) = formError w
    /\ events (snd (upload_one type file w)) = events w ++ evs
    /\ state_events evs = []
    /\ (network_calls evs <= 2)%nat
    /\ match fst (upload_one type file w) with
       | Resolved _ => length added = 1%nat
       | Rejected _ => added = []
       end.
Proof.
  unfold upload_one, getUploadUrl, uploadFile, bind, apiClient_post_upload_url,
    fetch_put, next_reply, emit, ret, throw, setUploadedImages, setUploadedAudio.
  destruct type; cbn.
  all: destruct (replies w) as [|[[grant|e]|o|o] rs]; cbn;
    try (exists [], [Network (POST_s3_upload_url (getFileType (file_type file))
                               (getFileExtension (file_name file)))];
         rewrite ?app_nil_r; repeat split; first [reflexivity | vm_compute; lia]).
  all: destruct rs as [|[o|o|[r|e]] rs']; cbn;
    try (eexists [], [_; _]; rewrite ?app_nil_r, <- ?app_assoc;
         repeat split; first [reflexivity | vm_compute; lia]).
  all: destruct (ok r); cbn; unfold emit; cbn.
  all: try (eexists [_], [_; _; _]; rewrite <- ?app_assoc;
            repeat split; first [reflexivity | vm_compute; lia]).
  all: eexists [], [_; _]; rewrite ?app_nil_r, <- ?app_assoc;
    repeat split; first [reflexivity | vm_compute; lia].
Qed.

Lemma upload_loop_cons (type : UploadKind) (file : File) (files : list File)
    (w : World) :
  upload_loop type (file :: files) w
  = match upload_one type file w with
    | (Resolved _, w') => upload_loop type files w'
    | (Rejected e, w') => (Rejected e, w')
    end.
Proof. reflexivity. Qed.

(** The loop: as many URLs as files when it ends well, fewer when it is
    left early. *)
Lemma upload_loop_frame (type : UploadKind) (files : list File) (w : World) :
  exists added evs,
    uploaded type (snd (upload_loop type files w)) = uploaded type w ++ added
    /\ uploaded (other_kind type) (snd (upload_loop type files w))
       = uploaded (other_kind type) w
    /\ isUploading (snd (upload_loop type files w)) = isUploading w
    /\ formError (snd (upload_loop type files w)) = formError w
    /\ events (snd (upload_loop type files w)) = events w ++ evs
    /\ state_events evs = []
    /\ (network_calls evs <= 2 * length files)%nat
    /\ match fst (upload_loop type files w) with
       | Resolved _ => length added = length files
       | Rejected _ => (length added < length files)%nat
       end.
Proof.
  revert w. induction files as [|file files IH]; intros w.
  - exists [], []. cbn. rewrite !app_nil_r. repeat split; lia.
  - rewrite upload_loop_cons.
    destruct (upload_one_frame type file w)
      as (a1 & e1 & Hup & Hot & Hfl & Her & Hev & Hst & Hnet & Hres).
    destruct (upload_one type file w) as [[[]|e] w1]; cbn [fst snd] in *.
    + destruct (IH w1) as (a2 & e2 & Hup2 & Hot2 & Hfl2 & Her2 & Hev2 & Hst2 & Hnet2 & Hres2).
      exists (a1 ++ a2), (e1 ++ e2).
      rewrite Hup2, Hot2, Hfl2, Her2, Hev2, Hup, Hot, Hfl, Her, Hev.
      rewrite state_events_app, network_calls_app, Hst, Hst2, !length_app, <- !app_assoc.
      repeat split; try done; try (cbn [length]; lia).
      destruct (fst (upload_loop type files w1)); cbn [length]; lia.
    + exists a1, e1. subst a1. repeat split; try done; cbn [length]; lia.
Qed.

(** [handleFileUpload] on files: the flag, the loop, the message if the
    loop was left early, the flag. *)
Lemma handleFileUpload_cons (file : File) (files : list File) (type : UploadKind)
    (w : World) :
  handleFileUpload (Some (file :: files)) type w
  = match upload_loop type (file :: files) (snd (setIsUploading true w)) with
    | (Resolved _, w2) => (Resolved tt, snd (setIsUploading false w2))
    | (Rejected _, w2) =>
        (Resolved tt, snd (setIsUploading false (snd (setFormError upload_error w2))))
    end.
Proof.
  unfold handleFileUpload, bind, try_finally, try_catch, setIsUploading at 1.
  cbn [snd]. by destruct (upload_loop type (file :: files) _) as [[[]|e] w2].
Qed.

(** X21. [handleFileUpload] never rejects, whatever the network answers.
    It only appends to the list of its category, one URL per file at most,
    and leaves the other list alone.  With files given, it ends with the
    uploading flag false, after at most two calls per file, and the error
    message is set exactly when fewer URLs were added than files given. *)
Theorem handleFileUpload_never_rejects (files : option (list File)) (type : UploadKind)
    (w : World) :
  exists w' added,
    handleFileUpload files type w = (Resolved tt, w')
    /\ uploaded type w' = uploaded type w ++ added
    /\ uploaded (other_kind type) w' = uploaded (other_kind type) w
    /\ match files with
       | None | Some [] => w' = w
       | Some files =>
           isUploading w' = false
           /\ (network_calls (events w') <= network_calls (events w) + 2 * length files)%nat
           /\ ((length added = length files /\ formError w' = formError w)
               \/ ((length added < length files)%nat
                   /\ formError w' = Some upload_error))
       end.
Proof.
  destruct files as [[|file files]|];
    try (exists w, []; rewrite app_nil_r; by repeat split).
  rewrite handleFileUpload_cons. set (fs := file :: files).
  set (w1 := snd (setIsUploading true w)).
  destruct (upload_loop_frame type fs w1)
    as (added & evs & Hup & Hot & Hfl & Her & Hev & Hst & Hnet & Hres).
  assert (events w1 = events w ++ [SetIsUploading true]) as Hev1 by reflexivity.
  destruct (upload_loop type fs w1) as [[[]|e] w2]; cbn [fst snd] in *.
  - eexists _, added. split; [reflexivity|].
    split; [by destruct type|]. split; [by destruct type|].
    split; [reflexivity|]. split.
    + cbn [events emit setIsUploading snd]. rewrite Hev, Hev1.
      rewrite !network_calls_app. change (network_calls [SetIsUploading _]) with 0%nat.
      lia.
    + left. split; [done|]. exact Her.
  - eexists _, added. split; [reflexivity|].
    split; [by destruct type|]. split; [by destruct type|].
    split; [reflexivity|]. split.
    + cbn [events emit setIsUploading setFormError snd]. rewrite Hev, Hev1.
      rewrite !network_calls_app. change (network_calls [SetIsUploading _]) with 0%nat.
      change (network_calls [SetFormError _]) with 0%nat. lia.
    + right. split; done.
Qed.

Lemma upload_one_fails (type : UploadKind) (file : File) (f : Failure)
    (rest : list Reply) (w : World) :
  replies w = failure_replies f ++ rest ->
  is_failure f = true ->
  exists e w',
    upload_one type file w = (Rejected e, w')
    /\ uploadedImages w' = uploadedImages w
    /\ uploadedAudio w' = uploadedAudio w
    /\ isUploading w' = isUploading w
    /\ formError w' = formError w
    /\ replies w' = rest
    /\ events w' = events w ++ failure_calls file f.
Proof.
  intros Hr Hf.
  unfold upload_one, getUploadUrl, uploadFile, bind, apiClient_post_upload_url,
    fetch_put, next_reply, emit, ret, throw.
  cbn. rewrite Hr. destruct f as [e|grant [r|e]]; cbn in *.
  - eexists _, _. split; [reflexivity|]. by repeat split.
  - apply negb_true_iff in Hf. rewrite Hf. cbn.
    eexists _, _. split; [reflexivity|]. cbn. rewrite <- app_assoc. by repeat split.
  - eexists _, _. split; [reflexivity|]. cbn. rewrite <- app_assoc. by repeat split.
Qed.

Lemma tasks_done_other (type : UploadKind) (w : World) (ts : list Task) :
  uploaded (other_kind type) (tasks_done type w ts) = uploaded (other_kind type) w.
Proof.
  induction ts as [|t ts IH] using rev_ind; [done|].
  rewrite tasks_done_snoc. by destruct type.
Qed.

(** A batch whose tasks go through up to one that fails, at either step:
    the state that [handleFileUpload] leaves. *)
Lemma handleFileUpload_stops (type : UploadKind) (finished : list Task) (file : File)
    (f : Failure) (later : list File) (rest : list Reply) (w : World) :
  forallb transfer_ok finished = true ->
  is_failure f = true ->
  replies w = flat_map task_replies finished ++ failure_replies f ++ rest ->
  exists w',
    handleFileUpload (Some (List.map task_file finished ++ file :: later)) type w
    = (Resolved tt, w')
    /\ uploaded type w' = uploaded type w ++ List.map task_url finished
    /\ uploaded (other_kind type) w' = uploaded (other_kind type) w
    /\ isUploading w' = false
    /\ formError w' = Some upload_error
    /\ replies w' = rest
    /\ exists evs,
         events w' = events w ++ [SetIsUploading true] ++ evs
                       ++ [SetFormError upload_error; SetIsUploading false]
         /\ filter (fun ev => is_network ev = true) evs
            = flat_map task_calls finished ++ failure_calls file f
         /\ filter (fun ev => is_state_event ev = true) evs = [].
Proof.
  intros Hok Hf Hr.
  destruct (List.map task_file finished ++ file :: later) as [|f0 fs] eqn:E;
    [by destruct finished|].
  rewrite handleFileUpload_cons, <- E.
  set (w1 := snd (setIsUploading true w)).
  assert (replies w1 = flat_map task_replies finished ++ failure_replies f ++ rest)
    as Hr1 by exact Hr.
  rewrite (upload_loop_done type finished _ _ w1 Hr1 Hok).
  destruct (tasks_done_spec type finished _ w1 Hr1)
    as (Hup & Hfl & Her & Hrep & evs & Hev & Hnet & Hst).
  rewrite upload_loop_cons.
  destruct (upload_one_fails type file f rest _ Hrep Hf)
    as (e & w2 & -> & Hi & Ha & Hu & Hfe & Hrs & Hevs).
  eexists. split; [reflexivity|].
  assert (forall k, uploaded k w2 = uploaded k (tasks_done type w1 finished)) as Hk
    by (by intros []).
  split; [|split; [|split; [done|split; [done|split; [exact Hrs|]]]]].
  - destruct type; cbn; [rewrite Hi|rewrite Ha]; exact Hup.
  - transitivity (uploaded (other_kind type) w2); [by destruct type|].
    rewrite Hk, tasks_done_other. by destruct type.
  - exists (evs ++ failure_calls file f). split; [|split].
    + cbn [events emit setIsUploading setFormError snd]. rewrite Hevs, Hev. cbn.
      by rewrite <- !app_assoc.
    + rewrite filter_app, Hnet. f_equal. by destruct f.
    + rewrite filter_app, Hst. by destruct f.
Qed.

(** X22. A file whose grant request fails stops the batch like a failed
    transfer does, and nothing is sent for it: the URLs of the files
    before it are appended in order, the error message is set, the flag
    ends false, the one call made for the file is the grant request, and
    no call at all is made for the files after it. *)
Theorem handleFileUpload_stops_at_grant_failure (type : UploadKind)
    (finished : list Task) (file : File) (e : Error) (later : list File)
    (rest : list Reply) (w : World) :
  forallb transfer_ok finished = true ->
  replies w = flat_map task_replies finished ++ UploadUrlReply (Rejected e) :: rest ->
  exists w',
    handleFileUpload (Some (List.map task_file finished ++ file :: later)) type w
    = (Resolved tt, w')
    /\ uploaded type w' = uploaded type w ++ List.map task_url finished
    /\ isUploading w' = false
    /\ formError w' = Some upload_error
    /\ replies w' = rest
    /\ filter (fun ev => is_network ev = true) (events w')
       = filter (fun ev => is_network ev = true) (events w)
           ++ flat_map task_calls finished
           ++ [Network (POST_s3_upload_url (getFileType (file_type file))
                          (getFileExtension (file_name file)))].
Proof.
  intros Hok Hr.
  destruct (handleFileUpload_stops type finished file (GrantFails e) later rest w
              Hok eq_refl Hr)
    as (w' & H & Hup & _ & Hfl & Her & Hrep & evs & Hev & Hnet & _).
  exists w'. repeat split; try done.
  rewrite Hev, !filter_app, Hnet. cbn. by rewrite app_nil_r.
Qed.

Lemma handleFileUpload_stops_at_grant_failure_witness :
  exists w',
    handleFileUpload (Some [photo "a.jpg"; photo "b.jpg"; photo "c.jpg"]) image
      (fresh_page (task_replies task0 ++ UploadUrlReply (Rejected NetworkError)
                     :: task_replies task2))
    = (Resolved tt, w')
    /\ uploaded image w' = [Some "url-a"]
    /\ isUploading w' = false
    /\ formError w' = Some upload_error
    /\ replies w' = task_replies task2
    /\ filter (fun ev => is_network ev = true) (events w')
       = task_calls task0 ++ [Network (POST_s3_upload_url IMAGE "jpg")].
Proof.
  exact (handleFileUpload_stops_at_grant_failure image [task0] (photo "b.jpg")
           NetworkError [photo "c.jpg"] (task_replies task2)
           (fresh_page (task_replies task0 ++ UploadUrlReply (Rejected NetworkError)
                          :: task_replies task2)) eq_refl eq_refl).
Defined.

(** X23. A batch in which every task goes through: every URL is appended,
    in submission order, the other list and the error message are as they
    were, the flag ends false, and the calls made are the two calls of
    each task, in order, between the two settings of the flag. *)
Theorem handleFileUpload_all_succeed (type : UploadKind) (t : Task) (ts : list Task)
    (rest : list Reply) (w : World) :
  forallb transfer_ok (t :: ts) = true ->
  replies w = flat_map task_replies (t :: ts) ++ rest ->
  exists w',
    handleFileUpload (Some (List.map task_file (t :: ts))) type w = (Resolved tt, w')
    /\ uploaded type w' = uploaded type w ++ List.map task_url (t :: ts)
    /\ isUploading w' = false
    /\ formError w' = formError w
    /\ replies w' = rest
    /\ exists evs,
         events w' = events w ++ [SetIsUploading true] ++ evs ++ [SetIsUploading false]
         /\ filter (fun ev => is_network ev = true) evs = flat_map task_calls (t :: ts)
         /\ filter (fun ev => is_state_event ev = true) evs = [].
Proof.
  intros Hok Hr. set (tasks := t :: ts) in *.
  change (List.map task_file tasks) with (task_file t :: List.map task_file ts).
  rewrite handleFileUpload_cons.
  change (task_file t :: List.map task_file ts) with (List.map task_file tasks).
  set (w1 := snd (setIsUploading true w)).
  assert (replies w1 = flat_map task_replies tasks ++ rest) as Hr1 by exact Hr.
  rewrite <- (app_nil_r (List.map task_file tasks)).
  rewrite (upload_loop_done type tasks [] rest w1 Hr1 Hok). cbn [upload_loop ret].
  destruct (tasks_done_spec type tasks rest w1 Hr1)
    as (Hup & Hfl & Her & Hrep & evs & Hev & Hnet & Hst).
  eexists. split; [reflexivity|].
  split; [by destruct type|]. split; [done|]. split; [exact Her|].
  split; [exact Hrep|]. exists evs. split; [|done].
  cbn [events emit setIsUploading snd]. rewrite Hev. cbn. by rewrite <- !app_assoc.
Qed.

Lemma handleFileUpload_all_succeed_witness :
  exists w',
    handleFileUpload (Some [photo "a.jpg"; photo "c.jpg"]) image
      (fresh_page (task_replies task0 ++ task_replies task2))
    = (Resolved tt, w')
    /\ uploaded image w' = [Some "url-a"; Some "url-c"]
    /\ isUploading w' = false
    /\ formError w' = None
    /\ replies w' = []
    /\ exists evs,
         events w' = [SetIsUploading true] ++ evs ++ [SetIsUploading false]
         /\ filter (fun ev => is_network ev = true) evs
            = flat_map task_calls [task0; task2]
         /\ filter (fun ev => is_state_event ev = true) evs = [].
Proof.
  exact (handleFileUpload_all_succeed image task0 [task2] []
           (fresh_page (task_replies task0 ++ task_replies task2)) eq_refl eq_refl).
Defined.

(** The state that a batch leaves when every task goes through. *)
Lemma handleFileUpload_done_world (type : UploadKind) (t : Task) (ts : list Task)
    (rest : list Reply) (w : World) :
  forallb transfer_ok (t :: ts) = true ->
  replies w = flat_map task_replies (t :: ts) ++ rest ->
  handleFileUpload (Some (List.map task_file (t :: ts))) type w
  = (Resolved tt,
     snd (setIsUploading false
            (tasks_done type (snd (setIsUploading true w)) (t :: ts)))).
Proof.
  intros Hok Hr. set (tasks := t :: ts) in *.
  change (List.map task_file tasks) with (task_file t :: List.map task_file ts).
  rewrite handleFileUpload_cons.
  change (task_file t :: List.map task_file ts) with (List.map task_file tasks).
  rewrite <- (app_nil_r (List.map task_file tasks)).
  by rewrite (upload_loop_done type tasks [] rest (snd (setIsUploading true w)) Hr Hok).
Qed.

(** X24. The list and the bucket are chosen apart.  A file picked through
    the image input whose MIME type does not start with ["image/"] is
    requested from the backend as AUDIO, and its URL is appended to the
    image list all the same; the audio list is not touched. *)
Theorem image_input_takes_any_file (t : Task) (rest : list Reply) (w : World) :
  replies w = task_replies t ++ rest ->
  transfer_ok t = true ->
  JS.startsWith (file_type (task_file t)) "image/" = false ->
  exists w',
    handleFileUpload (Some [task_file t]) image w = (Resolved tt, w')
    /\ uploadedImages w' = uploadedImages w ++ [task_url t]
    /\ uploadedAudio w' = uploadedAudio w
    /\ filter (fun ev => is_network ev = true) (events w')
       = filter (fun ev => is_network ev = true) (events w)
           ++ [Network (POST_s3_upload_url AUDIO
                          (getFileExtension (file_name (task_file t))));
               Network (PUT (data_uploadUrl (task_grant t)) (task_file t)
                          (file_type (task_file t)))].
Proof.
  intros Hr Hok Hmime.
  assert (forallb transfer_ok [t] = true) as Hoks by (cbn; by rewrite Hok).
  assert (replies w = flat_map task_replies [t] ++ rest) as Hrs
    by (cbn [flat_map]; by rewrite app_nil_r).
  change [task_file t] with (List.map task_file [t]).
  rewrite (handleFileUpload_done_world image t [] rest w Hoks Hrs).
  eexists. split; [reflexivity|]. cbn. repeat split.
  unfold getFileType. rewrite Hmime. rewrite !filter_app. cbn.
  by rewrite <- !app_assoc.
Qed.

Lemma image_input_takes_any_file_witness :
  exists w',
    handleFileUpload (Some [task_file pdf_task]) image
      (fresh_page (task_replies pdf_task)) = (Resolved tt, w')
    /\ uploadedImages w' = [Some "url-pdf"]
    /\ uploadedAudio w' = []
    /\ filter (fun ev => is_network ev = true) (events w')
       = [Network (POST_s3_upload_url AUDIO "pdf");
          Network (PUT (Some "put:url-pdf") (task_file pdf_task) "application/pdf")].
Proof.
  exact (image_input_takes_any_file pdf_task [] (fresh_page (task_replies pdf_task))
           eq_refl eq_refl eq_refl).
Defined.

Lemma uploaded_removeFile (url : option string) (type : UploadKind) (w : World) :
  uploaded type (snd (removeFile url type w))
  = filter (fun u => u <> url) (uploaded type w).
Proof. by destruct type. Qed.

(** X25. Uploading one file and then removing its URL gives the list back
    as it was when the URL was not in it before; when it was, the earlier
    copies go too and the list ends shorter than it was.  The other list
    is as it was in both cases. *)
Theorem upload_then_removeFile (type : UploadKind) (t : Task) (rest : list Reply)
    (w : World) :
  replies w = task_replies t ++ rest ->
  transfer_ok t = true ->
  let w1 := snd (handleFileUpload (Some [task_file t]) type w) in
  let w2 := snd (removeFile (task_url t) type w1) in
  uploaded type w1 = uploaded type w ++ [task_url t]
  /\ (task_url t ∉ uploaded type w -> uploaded type w2 = uploaded type w)
  /\ (task_url t ∈ uploaded type w ->
      (length (uploaded type w2) < length (uploaded type w))%nat)
  /\ uploaded (other_kind type) w2 = uploaded (other_kind type) w.
Proof.
  intros Hr Hok.
  assert (forallb transfer_ok [t] = true) as Hoks by (cbn; by rewrite Hok).
  assert (replies w = flat_map task_replies [t] ++ rest) as Hrs
    by (cbn [flat_map]; by rewrite app_nil_r).
  change [task_file t] with (List.map task_file [t]).
  rewrite (handleFileUpload_done_world type t [] rest w Hoks Hrs). cbn zeta.
  set (w1 := snd (Resolved tt, _)).
  assert (uploaded type w1 = uploaded type w ++ [task_url t]) as H1 by (by destruct type).
  assert (uploaded (other_kind type) w1 = uploaded (other_kind type) w) as H2
    by (by destruct type).
  assert (filter (fun u => u <> task_url t) (uploaded type w ++ [task_url t])
          = filter (fun u => u <> task_url t) (uploaded type w)) as Hf.
  { rewrite filter_app, filter_cons_False by (intros H; by apply H).
    by rewrite filter_nil, app_nil_r. }
  split; [exact H1|]. rewrite uploaded_removeFile, H1, Hf.
  split; [|split].
  - apply filter_ne_absent.
  - intros Hin. apply (length_filter_lt _ _ (task_url t)); [done|]. intros H. by apply H.
  - rewrite <- H2. by destruct type.
Qed.

Lemma upload_then_removeFile_witness :
  let w1 := snd (handleFileUpload (Some [task_file task0]) image
                   (fresh_page (task_replies task0))) in
  let w2 := snd (removeFile (task_url task0) image w1) in
  uploaded image w1 = [Some "url-a"] /\ uploaded image w2 = [].
Proof.
  destruct (upload_then_removeFile image task0 [] (fresh_page (task_replies task0))
              eq_refl eq_refl) as (H1 & H2 & _).
  split; [exact H1|]. apply H2. apply not_elem_of_nil.
Defined.

(** X26. [removeFile], for either list: what stays are the URLs other than
    the one removed, in their order; the other list, the uploading flag,
    the error message and the pending replies are as they were; removing
    a URL that is not in the list leaves the list as it was, and removing
    the same URL again changes nothing more. *)
Theorem removeFile_either_list (url : option string) (type : UploadKind) (w : World) :
  let w' := snd (removeFile url type w) in
  (forall u, u ∈ uploaded type w' <-> u ∈ uploaded type w /\ u <> url)
  /\ (uploaded type w' `sublist_of` uploaded type w)
  /\ uploaded (other_kind type) w' = uploaded (other_kind type) w
  /\ isUploading w' = isUploading w
  /\ formError w' = formError w
  /\ replies w' = replies w
  /\ (url ∉ uploaded type w -> uploaded type w' = uploaded type w)
  /\ uploaded type (snd (removeFile url type w')) = uploaded type w'.
Proof.
  cbn zeta. rewrite !uploaded_removeFile.
  split; [intros u; rewrite list_elem_of_filter; tauto|].
  split; [apply sublist_filter|].
  split; [by destruct type|]. split; [by destruct type|].
  split; [by destruct type|]. split; [by destruct type|].
  split; [apply filter_ne_absent|].
  apply filter_ne_absent. rewrite list_elem_of_filter. intros [H _]. by apply H.
Qed.

(** X27. Trying again after a failed batch uploads the first files a
    second time.  When a batch stops at a failing file and the same files
    are then submitted again and all go through, the list holds the URLs
    of the first attempt followed by the URLs of the second: the files
    before the failing one are in it twice.  The error message of the
    first attempt is still set. *)
Theorem retry_uploads_again (type : UploadKind) (finished : list Task) (file : File)
    (f : Failure) (later : list File) (again : list Task) (rest : list Reply)
    (w : World) :
  forallb transfer_ok finished = true ->
  is_failure f = true ->
  forallb transfer_ok again = true ->
  List.map task_file again = List.map task_file finished ++ file :: later ->
  replies w = flat_map task_replies finished ++ failure_replies f
                ++ flat_map task_replies again ++ rest ->
  let files := List.map task_file finished ++ file :: later in
  let w1 := snd (handleFileUpload (Some files) type w) in
  let w2 := snd (handleFileUpload (Some files) type w1) in
  uploaded type w1 = uploaded type w ++ List.map task_url finished
  /\ uploaded type w2
     = uploaded type w ++ List.map task_url finished ++ List.map task_url again
  /\ length (uploaded type w2)
     = (length (uploaded type w) + 2 * length finished + 1 + length later)%nat
  /\ isUploading w2 = false
  /\ formError w2 = Some upload_error
  /\ replies w2 = rest.
Proof.
  intros Hok Hf Hok2 Hfiles Hr. cbn zeta.
  destruct (handleFileUpload_stops type finished file f later _ w Hok Hf Hr)
    as (w1 & -> & Hup & _ & _ & Her & Hrep & _).
  cbn [snd]. rewrite <- Hfiles.
  destruct again as [|t ts]; [by destruct finished|].
  destruct (handleFileUpload_all_done type t ts rest w1 Hok2 Hrep)
    as (w2 & -> & Hup2 & Hfl2 & Her2 & Hrep2).
  cbn [snd]. rewrite Hup2, Hup, <- app_assoc. repeat split; try done.
  - rewrite !length_app, !length_map.
    apply (f_equal (@length File)) in Hfiles.
    rewrite length_map, length_app, length_map in Hfiles. cbn [length] in *. lia.
  - by rewrite Her2.
Qed.

Lemma retry_uploads_again_witness :
  let files := [photo "a.jpg"; photo "b.jpg"] in
  let w := fresh_page (task_replies task0 ++ task_replies task1
                         ++ task_replies task0
                         ++ task_replies {| task_file := photo "b.jpg";
                                            task_grant := grant_for "url-b";
                                            task_put := Resolved status_200 |}) in
  let w2 := snd (handleFileUpload (Some files) image
                   (snd (handleFileUpload (Some files) image w))) in
  uploaded image w2 = [Some "url-a"; Some "url-a"; Some "url-b"].
Proof.
  destruct (retry_uploads_again image [task0] (photo "b.jpg")
              (TransferFails (grant_for "url-b") (Resolved status_403)) []
              [task0; {| task_file := photo "b.jpg"; task_grant := grant_for "url-b";
                         task_put := Resolved status_200 |}] []
              (fresh_page (task_replies task0 ++ task_replies task1
                             ++ task_replies task0
                             ++ task_replies {| task_file := photo "b.jpg";
                                                task_grant := grant_for "url-b";
                                                task_put := Resolved status_200 |}))
              eq_refl eq_refl eq_refl eq_refl eq_refl) as (_ & H & _).
  exact H.
Defined.

(** X28. A grant without a public URL is not an error for the page.  When
    none of [s3Url], [fileUrl], [downloadUrl] is a non-empty string and the
    transfer goes through, [handleFileUpload] still appends an entry, the
    [downloadUrl] field as it came ([undefined] or the empty string), and
    sets no error message. *)
Theorem upload_without_public_url (type : UploadKind) (t : Task) (rest : list Reply)
    (w : World) :
  replies w = task_replies t ++ rest ->
  transfer_ok t = true ->
  first_present_non_empty
    [data_s3Url (task_grant t); data_fileUrl (task_grant t);
     data_downloadUrl (task_grant t)] = None ->
  let w' := snd (handleFileUpload (Some [task_file t]) type w) in
  uploaded type w' = uploaded type w ++ [data_downloadUrl (task_grant t)]
  /\ JS.truthy_str (data_downloadUrl (task_grant t)) = false
  /\ formError w' = formError w
  /\ isUploading w' = false.
Proof.
  intros Hr Hok Hnone.
  assert (forallb transfer_ok [t] = true) as Hoks by (cbn; by rewrite Hok).
  assert (replies w = flat_map task_replies [t] ++ rest) as Hrs
    by (cbn [flat_map]; by rewrite app_nil_r).
  change [task_file t] with (List.map task_file [t]).
  rewrite (handleFileUpload_done_world type t [] rest w Hoks Hrs). cbn zeta.
  assert (task_url t = data_downloadUrl (task_grant t)
          /\ JS.truthy_str (data_downloadUrl (task_grant t)) = false) as [Hu Hd].
  { unfold task_url. destruct (task_grant t) as [u [[|c1 s1]|] [[|c2 s2]|] [[|c3 s3]|] m];
      cbn in *; done. }
  split; [|done]. rewrite <- Hu. by destruct type.
Qed.

Lemma upload_without_public_url_witness :
  let w' := snd (handleFileUpload (Some [task_file nameless_task]) image
                   (fresh_page (task_replies nameless_task))) in
  uploaded image w' = [None]
  /\ JS.truthy_str None = false
  /\ formError w' = None
  /\ isUploading w' = false.
Proof.
  exact (upload_without_public_url image nameless_task []
           (fresh_page (task_replies nameless_task)) eq_refl eq_refl eq_refl).
Defined.
